(** * BlackRoad CDN Manager: the configuration store of [src/cdn_manager.py]

    A shallow embedding of [CDNManager] (three SQLite tables, the
    operations [add_origin], [list_origins], [add_cache_rule],
    [purge_cache], [cdn_status], [export_json]) and the properties the
    specification states about them.

    Layout:
    - [Timestamps]: the two textual clocks the code uses,
      SQLite's [CURRENT_TIMESTAMP] / [datetime('now', ...)] and Python's
      [datetime.now().isoformat()], with the calendar they share;
    - [Sqlite]: tables with AUTOINCREMENT, the connection with its implicit
      transaction, commit and rollback, injected storage faults, and the
      64 bits of an INTEGER;
    - [CDN]: the data classes, the schema and the methods of [CDNManager];
    - [Display], [CLI]: the display helpers and [main];
    - [TextOrder]: SQLite's BINARY collation on TEXT;
    - the theorems: the claims of the specification in [CDNFacts], more of
      the store, the display and the command line after them. *)

From Stdlib Require Import ZArith List String Ascii Bool Lia.
From Stdlib Require Import DecimalString DecimalZ DecimalPos.
From Stdlib Require Import Sorting.Sorted Sorting.Permutation.
From stdpp Require Import gmap strings.

Local Open Scope string_scope.

(** ** Timestamps *)

Module Timestamps.
Local Open Scope Z_scope.

(** One decimal digit, as the character '0'..'9'. *)
Definition digit (n : Z) : ascii := ascii_of_N (48 + Z.to_N (n mod 10)).

(** [pad k v]: [v] written with exactly [k] decimal digits, zero padded
    (the [%0kd] of both formatters, for [0 <= v < 10^k]). *)
Fixpoint pad (k : nat) (v : Z) : string :=
  match k with
  | O => EmptyString
  | S k' => pad k' (v / 10) ++ String (digit v) EmptyString
  end.

(** The proleptic Gregorian calendar, which SQLite's date functions and
    Python's [datetime] both follow, in integer arithmetic. Date of a day of
    the 400-year era that starts on March 1st: year of era (already moved to
    a January start), month, day. *)
Definition civil_of_doe (doe : Z) : Z * Z * Z :=
  let yoe := (doe - doe / 1460 + doe / 36524 - doe / 146096) / 365 in
  let doy := doe - (365 * yoe + yoe / 4 - yoe / 100) in
  let mp := (5 * doy + 2) / 153 in
  let d := doy - (153 * mp + 2) / 5 + 1 in
  let m := if mp <? 10 then mp + 3 else mp - 9 in
  (if m <=? 2 then yoe + 1 else yoe, m, d).

(** Date of a day counted from 1970-01-01 (the Unix epoch). *)
Definition civil_from_days (z : Z) : Z * Z * Z :=
  let z' := z + 719468 in
  let era := z' / 146097 in
  let '(y, m, d) := civil_of_doe (z' mod 146097) in
  (y + 400 * era, m, d).

(** "YYYY-MM-DD" ++ sep ++ "HH:MM:SS" of a count of seconds since the epoch. *)
Definition date_time (sep : ascii) (s : Z) : string :=
  let '(y, m, d) := civil_from_days (s / 86400) in
  let sod := s mod 86400 in
  pad 4 y ++ "-" ++ pad 2 m ++ "-" ++ pad 2 d ++ String sep
    (pad 2 (sod / 3600) ++ ":" ++ pad 2 (sod mod 3600 / 60) ++ ":" ++ pad 2 (sod mod 60)).

(** A reading of the wall clock: microseconds since the epoch (UTC) and the
    offset of the local time zone in seconds. *)
Record Clock := { unix_us : Z; utc_offset : Z }.

Definition unix_seconds (c : Clock) : Z := unix_us c / 1000000.

(** SQLite: [datetime(...)] of a UTC instant, "YYYY-MM-DD HH:MM:SS". *)
Definition sqlite_datetime (s : Z) : string := date_time " " s.

(** SQLite: [CURRENT_TIMESTAMP], the column default of [created_at]. *)
Definition CURRENT_TIMESTAMP (c : Clock) : string :=
  sqlite_datetime (unix_seconds c).

(** SQLite: [datetime('now','-1 day')]. *)
Definition datetime_now_minus_1_day (c : Clock) : string :=
  sqlite_datetime (unix_seconds c - 86400).

(** Python: [datetime.now().isoformat()], naive local time,
    "YYYY-MM-DDTHH:MM:SS.ffffff", the fraction omitted when it is zero. *)
Definition datetime_now_isoformat (c : Clock) : string :=
  let us := unix_us c mod 1000000 in
  date_time "T" (unix_seconds c + utc_offset c)
    ++ (if us =? 0 then "" else "." ++ pad 6 us).

(** The instants both formatters can print: years 0000 to 9999. *)
Definition valid_ts (s : Z) : Prop := -62167219200 <= s <= 253402300799.

(** A date as one number, YYYYMMDD: dates compare as their keys do. *)
Definition date_key (ymd : Z * Z * Z) : Z :=
  let '(y, m, d) := ymd in y * 10000 + m * 100 + d.

(** Scan of [n] days of an era from day [i] on: every date is later than
    the one before it ([prev] is the key of the date before the first) and
    has its month and its day of the month in range. *)
Fixpoint era_scan (prev i : Z) (n : nat) : bool :=
  match n with
  | O => true
  | S n' =>
      let '(y, m, d) := civil_of_doe i in
      let k := date_key (y, m, d) in
      (prev <? k) && (1 <=? m) && (m <=? 12) && (1 <=? d) && (d <=? 31)
      && era_scan k (i + 1) n'
  end.

End Timestamps.

(** ** SQLite: tables, transactions, faults *)

Module Sqlite.
Local Open Scope Z_scope.

(** What a call into [sqlite3] can raise. [IntegrityError] carries SQLite's
    message; [OperationalError] stands for every failure of the storage
    itself (the file cannot be opened, database locked, disk full, i/o
    error): the code neither catches nor distinguishes them. [OverflowError]
    is Python's own: [sqlite3] raises it when it is asked to bind an int that
    an INTEGER cannot hold. *)
Inductive Exn :=
| IntegrityError (msg : string)
| OperationalError
| OverflowError.

Inductive Result (A : Type) :=
| Ok (a : A)
| Raise (e : Exn).
Arguments Ok {A} a.
Arguments Raise {A} e.

Definition raised {A} (r : Result A) : bool :=
  match r with Ok _ => false | Raise _ => true end.

(** A Python int has no bound, an INTEGER of SQLite has 64 bits. *)
Definition fits_int64 (n : Z) : bool :=
  (-9223372036854775808 <=? n) && (n <=? 9223372036854775807).

(** Rows carry their rowid ([id INTEGER PRIMARY KEY]). *)
Class Row (R : Type) := rowid : R -> Z.

(** A table with an AUTOINCREMENT key: its rows in rowid order (the order of
    a table scan) and its entry in [sqlite_sequence]. *)
Record Table (R : Type) := { rows : list R; seq : Z }.
Arguments rows {R} t.
Arguments seq {R} t.

Definition empty_table {R} : Table R := {| rows := []; seq := 0 |}.

Definition max_rowid {R} `{Row R} (rs : list R) : Z :=
  fold_right (fun r acc => Z.max (rowid r) acc) 0 rs.

(** AUTOINCREMENT: one more than the largest rowid that ever existed in the
    table, which [sqlite_sequence] remembers. *)
Definition next_rowid {R} `{Row R} (t : Table R) : Z :=
  Z.max (seq t) (max_rowid (rows t)) + 1.

(** INSERT of one row whose id column is left to the table; gives the new
    table and [lastrowid]. (A table that has used up the rowids, the last
    being 2^63 - 1, takes no more rows; the code adds one row per call and
    does not get there.) *)
Definition insert_row {R} `{Row R} (mk : Z -> R) (t : Table R) : Table R * Z :=
  let id := next_rowid t in
  ({| rows := rows t ++ [mk id]; seq := id |}, id).

(** The shape a table keeps: rowids positive, strictly increasing along the
    scan, none above the sequence. *)
Definition table_ok {R} `{Row R} (t : Table R) : Prop :=
  StronglySorted Z.lt (map rowid (rows t))
  /\ Forall (fun r => 0 < rowid r <= seq t) (rows t).

(** UPDATE ... SET ... WHERE: [upd] applied to the rows that satisfy [cond]. *)
Definition update_rows {R} (cond : R -> bool) (upd : R -> R) (t : Table R) : Table R :=
  {| rows := map (fun r => if cond r then upd r else r) (rows t); seq := seq t |}.

(** ORDER BY: a stable insertion sort under [le]. (SQLite leaves the order
    of rows that tie open; nothing below depends on how ties fall.) *)
Fixpoint insert_sorted {R} (le : R -> R -> bool) (x : R) (l : list R) : list R :=
  match l with
  | [] => [x]
  | y :: l' => if le x y then x :: y :: l' else y :: insert_sorted le x l'
  end.

Definition order_by {R} (le : R -> R -> bool) (l : list R) : list R :=
  fold_right (insert_sorted le) [] l.

(** A connection on a database file of type [D]: the committed contents, the
    working copy of the open transaction if there is one, and the storage
    faults still to come, one flag per statement or commit ([true]: that one
    fails; for the first statement of a connection this includes the
    connection that cannot be opened). *)
Record Conn (D : Type) := { disk : D; txn : option D; faults : list bool }.
Arguments disk {D} c.
Arguments txn {D} c.
Arguments faults {D} c.

Definition current {D} (c : Conn D) : D :=
  match txn c with Some d => d | None => disk c end.

(** Code that runs against a connection and may raise. *)
Definition Sql (D A : Type) : Type := Conn D -> Result A * Conn D.

#[export] Instance sql_ret {D} : MRet (Sql D) :=
  fun A a c => (Ok a, c).

#[export] Instance sql_bind {D} : MBind (Sql D) :=
  fun A B f m c =>
    match m c with
    | (Ok a, c') => f a c'
    | (Raise e, c') => (Raise e, c')
    end.

(** [conn.execute] of an INSERT or UPDATE. [sqlite3] opens a transaction
    before the first such statement; a statement that fails leaves the
    transaction as it was. *)
Definition execute {D A} (stmt : D -> Result (A * D)) : Sql D A :=
  fun c =>
    match faults c with
    | true :: fs =>
        (Raise OperationalError, {| disk := disk c; txn := txn c; faults := fs |})
    | fs =>
        match stmt (current c) with
        | Ok (a, d') => (Ok a, {| disk := disk c; txn := Some d'; faults := tl fs |})
        | Raise e =>
            (Raise e, {| disk := disk c; txn := Some (current c); faults := tl fs |})
        end
    end.

(** [conn.execute] of a SELECT: it reads what the connection sees and opens
    no transaction. *)
Definition query {D A} (q : D -> Result A) : Sql D A :=
  fun c =>
    match faults c with
    | true :: fs =>
        (Raise OperationalError, {| disk := disk c; txn := txn c; faults := fs |})
    | fs => (q (current c), {| disk := disk c; txn := txn c; faults := tl fs |})
    end.

(** [conn.commit()]: nothing to do outside a transaction. *)
Definition commit {D} : Sql D unit :=
  fun c =>
    match txn c with
    | None => (Ok tt, c)
    | Some d =>
        match faults c with
        | true :: fs =>
            (Raise OperationalError, {| disk := disk c; txn := txn c; faults := fs |})
        | fs => (Ok tt, {| disk := d; txn := None; faults := tl fs |})
        end
    end.

Definition rollback {D} (c : Conn D) : Conn D :=
  {| disk := disk c; txn := None; faults := faults c |}.

(** [with sqlite3.connect(db_path) as conn: body]: commit when the body
    returns, roll back when it raises (and re-raise); an open transaction
    that is never committed is lost with the connection. The result is the
    value or exception of the block and what is on disk afterwards. *)
Definition with_connection {D A} (body : Sql D A) (fs : list bool) (d : D)
  : Result A * D :=
  match body {| disk := d; txn := None; faults := fs |} with
  | (Ok a, c) =>
      match commit c with
      | (Ok _, c') => (Ok a, disk c')
      | (Raise e, c') => (Raise e, disk (rollback c'))
      end
  | (Raise e, c) => (Raise e, disk (rollback c))
  end.

End Sqlite.

(** ** The CDN manager *)

Module CDN.
Import Timestamps Sqlite.
Local Open Scope Z_scope.

(** *** Data models (the three dataclasses) *)

Module CDNOrigin.
Record t := {
  id : option Z;
  name : string;
  origin_url : string;
  cdn_url : string;
  provider : string;
  status : string;
  cache_ttl : Z;
  notes : string;
  created_at : option string;
  last_purge : option string }.
End CDNOrigin.

Module CacheRule.
Record t := {
  id : option Z;
  origin_id : Z;
  path_pattern : string;
  ttl : Z;
  cache_headers : bool;
  rule_type : string;
  created_at : option string }.
End CacheRule.

Module PurgeEvent.
Record t := {
  id : option Z;
  origin_id : Z;
  purge_type : string;
  target : string;
  status : string;
  triggered_by : string;
  created_at : option string }.
End PurgeEvent.

(** *** The schema of [_init_db]: one record per table row *)

Module OriginRow.
Record t := {
  id : Z;
  name : string;
  origin_url : string;
  cdn_url : string;
  provider : string;
  status : string;
  cache_ttl : Z;
  notes : string;
  created_at : string;
  last_purge : option string }.
End OriginRow.

Module RuleRow.
Record t := {
  id : Z;
  origin_id : Z;
  path_pattern : string;
  ttl : Z;
  cache_headers : Z;
  rule_type : string;
  created_at : string }.
End RuleRow.

Module PurgeRow.
Record t := {
  id : Z;
  origin_id : Z;
  purge_type : string;
  target : string;
  status : string;
  triggered_by : string;
  created_at : string }.
End PurgeRow.

#[export] Instance origin_rowid : Row OriginRow.t := OriginRow.id.
#[export] Instance rule_rowid : Row RuleRow.t := RuleRow.id.
#[export] Instance purge_rowid : Row PurgeRow.t := PurgeRow.id.

Record Database := {
  cdn_origins : Table OriginRow.t;
  cache_rules : Table RuleRow.t;
  purge_events : Table PurgeRow.t }.

(** [_init_db] on a new file: the three tables, empty. (On an existing file
    CREATE TABLE IF NOT EXISTS changes nothing.) *)
Definition _init_db : Database :=
  {| cdn_origins := empty_table; cache_rules := empty_table; purge_events := empty_table |}.

(** What a call gets from outside: the wall clock and the storage faults
    that will hit its statements and commits, in the order in which the call
    issues them. Python and SQLite read the clock within one call a few
    instructions apart; the model gives both the same instant. *)
Record World := { clock : Clock; storage_faults : list bool }.

Definition healthy (c : Clock) : World := {| clock := c; storage_faults := [] |}.

(** The world as it is after [n] storage operations. *)
Definition later (n : nat) (w : World) : World :=
  {| clock := clock w; storage_faults := skipn n (storage_faults w) |}.

(** One of the first [n] storage operations of the call fails. *)
Definition fault_within (n : nat) (w : World) : bool :=
  existsb (fun b => b) (firstn n (storage_faults w)).

(** *** Statements *)

(** The row an INSERT INTO cdn_origins (name, origin_url, cdn_url, provider,
    cache_ttl, notes) builds: [status], [created_at] and [last_purge] take
    their defaults. *)
Definition origin_row (now : Clock) (name origin_url cdn_url provider : string)
    (cache_ttl : Z) (notes : string) (i : Z) : OriginRow.t :=
  {| OriginRow.id := i; OriginRow.name := name;
     OriginRow.origin_url := origin_url; OriginRow.cdn_url := cdn_url;
     OriginRow.provider := provider; OriginRow.status := "active";
     OriginRow.cache_ttl := cache_ttl; OriginRow.notes := notes;
     OriginRow.created_at := CURRENT_TIMESTAMP now;
     OriginRow.last_purge := None |}.

(** The row an INSERT INTO cache_rules (origin_id, path_pattern, ttl,
    cache_headers, rule_type) builds: [created_at] takes its default. *)
Definition rule_row (now : Clock) (origin_id : Z) (path_pattern : string)
    (ttl cache_headers : Z) (rule_type : string) (i : Z) : RuleRow.t :=
  {| RuleRow.id := i; RuleRow.origin_id := origin_id;
     RuleRow.path_pattern := path_pattern; RuleRow.ttl := ttl;
     RuleRow.cache_headers := cache_headers; RuleRow.rule_type := rule_type;
     RuleRow.created_at := CURRENT_TIMESTAMP now |}.

(** The row an INSERT INTO purge_events (origin_id, purge_type, target,
    status, triggered_by) builds: [created_at] is not among the columns and
    takes its default. *)
Definition purge_row (now : Clock) (origin_id : Z)
    (purge_type target status triggered_by : string) (i : Z) : PurgeRow.t :=
  {| PurgeRow.id := i; PurgeRow.origin_id := origin_id;
     PurgeRow.purge_type := purge_type; PurgeRow.target := target;
     PurgeRow.status := status; PurgeRow.triggered_by := triggered_by;
     PurgeRow.created_at := CURRENT_TIMESTAMP now |}.

(** The UNIQUE index on [cdn_origins.name]. *)
Definition name_taken (name : string) (db : Database) : bool :=
  existsb (fun r => String.eqb (OriginRow.name r) name) (rows (cdn_origins db)).

(** The statements below bind their parameters first: an int outside 64 bits
    raises OverflowError before SQLite sees the statement. *)

(** INSERT INTO cdn_origins ... VALUES (?, ?, ?, ?, ?, ?) *)
Definition insert_origin (now : Clock) (name origin_url cdn_url provider : string)
    (cache_ttl : Z) (notes : string) (db : Database) : Result (Z * Database) :=
  if negb (fits_int64 cache_ttl) then Raise OverflowError
  else if name_taken name db
  then Raise (IntegrityError "UNIQUE constraint failed: cdn_origins.name")
  else
    let '(t, lastrowid) :=
      insert_row (origin_row now name origin_url cdn_url provider cache_ttl notes)
        (cdn_origins db) in
    Ok (lastrowid,
        {| cdn_origins := t; cache_rules := cache_rules db;
           purge_events := purge_events db |}).

(** INSERT INTO cache_rules ... VALUES (?, ?, ?, ?, ?). The REFERENCES clause
    is not enforced: the connection never turns [PRAGMA foreign_keys] on. *)
Definition insert_cache_rule (now : Clock) (origin_id : Z) (path_pattern : string)
    (ttl cache_headers : Z) (rule_type : string) (db : Database)
    : Result (Z * Database) :=
  if negb (fits_int64 origin_id && fits_int64 ttl && fits_int64 cache_headers)
  then Raise OverflowError
  else
    let '(t, lastrowid) :=
      insert_row (rule_row now origin_id path_pattern ttl cache_headers rule_type)
        (cache_rules db) in
    Ok (lastrowid,
        {| cdn_origins := cdn_origins db; cache_rules := t;
           purge_events := purge_events db |}).

(** INSERT INTO purge_events ... VALUES (?, ?, ?, 'queued', ?); not enforced
    REFERENCES here either. *)
Definition insert_purge_event (now : Clock) (origin_id : Z)
    (purge_type target status triggered_by : string) (db : Database)
    : Result (Z * Database) :=
  if negb (fits_int64 origin_id) then Raise OverflowError
  else
    let '(t, lastrowid) :=
      insert_row (purge_row now origin_id purge_type target status triggered_by)
        (purge_events db) in
    Ok (lastrowid,
        {| cdn_origins := cdn_origins db; cache_rules := cache_rules db;
           purge_events := t |}).

Definition set_last_purge (ts : string) (r : OriginRow.t) : OriginRow.t :=
  {| OriginRow.id := OriginRow.id r; OriginRow.name := OriginRow.name r;
     OriginRow.origin_url := OriginRow.origin_url r;
     OriginRow.cdn_url := OriginRow.cdn_url r;
     OriginRow.provider := OriginRow.provider r;
     OriginRow.status := OriginRow.status r;
     OriginRow.cache_ttl := OriginRow.cache_ttl r;
     OriginRow.notes := OriginRow.notes r;
     OriginRow.created_at := OriginRow.created_at r;
     OriginRow.last_purge := Some ts |}.

(** UPDATE cdn_origins SET last_purge = ? WHERE id = ? *)
Definition update_last_purge (ts : string) (origin_id : Z) (db : Database)
    : Result (unit * Database) :=
  if negb (fits_int64 origin_id) then Raise OverflowError
  else
    Ok (tt,
        {| cdn_origins :=
             update_rows (fun r => OriginRow.id r =? origin_id) (set_last_purge ts)
               (cdn_origins db);
           cache_rules := cache_rules db; purge_events := purge_events db |}).

(** SELECT * FROM cdn_origins WHERE id = ?, [fetchone()] *)
Definition select_origin (origin_id : Z) (db : Database) : Result (option OriginRow.t) :=
  if negb (fits_int64 origin_id) then Raise OverflowError
  else Ok (find (fun r => OriginRow.id r =? origin_id) (rows (cdn_origins db))).

(** The [CDNOrigin] built from the columns of a row. *)
Definition origin_of_row (r : OriginRow.t) : CDNOrigin.t :=
  {| CDNOrigin.id := Some (OriginRow.id r); CDNOrigin.name := OriginRow.name r;
     CDNOrigin.origin_url := OriginRow.origin_url r;
     CDNOrigin.cdn_url := OriginRow.cdn_url r;
     CDNOrigin.provider := OriginRow.provider r;
     CDNOrigin.status := OriginRow.status r;
     CDNOrigin.cache_ttl := OriginRow.cache_ttl r;
     CDNOrigin.notes := OriginRow.notes r;
     CDNOrigin.created_at := Some (OriginRow.created_at r);
     CDNOrigin.last_purge := OriginRow.last_purge r |}.

(** ORDER BY name, ORDER BY created_at DESC: TEXT under the BINARY collation. *)
Definition by_name (a b : OriginRow.t) : bool :=
  String.leb (OriginRow.name a) (OriginRow.name b).

Definition by_created_at_desc (a b : PurgeRow.t) : bool :=
  String.leb (PurgeRow.created_at b) (PurgeRow.created_at a).

(** Python's truth value of an [Optional[str]]: [None] and "" are false. *)
Definition truthy (s : option string) : bool :=
  match s with
  | None => false
  | Some s => negb (String.eqb s "")
  end.

(** *** The methods of [CDNManager] *)

Definition _get_origin (w : World) (origin_id : Z) (db : Database)
    : Result (option CDNOrigin.t) :=
  match fst (with_connection (query (select_origin origin_id)) (storage_faults w) db) with
  | Ok row => Ok (option_map origin_of_row row)
  | Raise e => Raise e
  end.

(** [add_origin] reads the new origin back on a connection of its own, after
    the block that inserted and committed it has been left: by then the
    INSERT and the commit have used their two flags. *)
Definition add_origin (w : World) (name origin_url cdn_url provider : string)
    (cache_ttl : Z) (notes : string) (db : Database)
    : Result (option CDNOrigin.t) * Database :=
  let '(r, db') :=
    with_connection
      (cur ← execute (insert_origin (clock w) name origin_url cdn_url provider cache_ttl notes);
       _ ← commit;
       mret cur)
      (storage_faults w) db in
  match r with
  | Ok lastrowid => (_get_origin (later 2 w) lastrowid db', db')
  | Raise e => (Raise e, db')
  end.

(** [list_origins], [cdn_status] and [export_json] only read, and bind no
    int. The functions below give what such a call returns when it returns;
    [reading] adds the other outcome: the call raises when one of its [n]
    queries fails. It changes nothing either way. *)
Definition reading {A} (n : nat) (w : World) (a : A) : Result A :=
  if fault_within n w then Raise OperationalError else Ok a.

Definition list_origins (provider : option string) (db : Database) : list CDNOrigin.t :=
  let all := rows (cdn_origins db) in
  let selected :=
    if truthy provider
    then List.filter
           (fun r => match provider with
                     | Some p => String.eqb (OriginRow.provider r) p
                     | None => true
                     end) all
    else all in
  map origin_of_row (order_by by_name selected).

Definition add_cache_rule (w : World) (origin_id : Z) (path_pattern : string)
    (ttl : Z) (cache_headers : bool) (rule_type : string) (db : Database)
    : Result CacheRule.t * Database :=
  let '(r, db') :=
    with_connection
      (cur ← execute (insert_cache_rule (clock w) origin_id path_pattern ttl
                        (Z.b2z cache_headers) rule_type);
       _ ← commit;
       mret cur)
      (storage_faults w) db in
  match r with
  | Ok lastrowid =>
      (Ok {| CacheRule.id := Some lastrowid; CacheRule.origin_id := origin_id;
             CacheRule.path_pattern := path_pattern; CacheRule.ttl := ttl;
             CacheRule.cache_headers := cache_headers;
             CacheRule.rule_type := rule_type; CacheRule.created_at := None |}, db')
  | Raise e => (Raise e, db')
  end.

Definition purge_cache (w : World) (origin_id : Z)
    (purge_type target triggered_by : string) (db : Database)
    : Result PurgeEvent.t * Database :=
  let ts := datetime_now_isoformat (clock w) in
  let '(r, db') :=
    with_connection
      (cur ← execute (insert_purge_event (clock w) origin_id purge_type target
                        "queued" triggered_by);
       _ ← execute (update_last_purge ts origin_id);
       _ ← commit;
       mret cur)
      (storage_faults w) db in
  match r with
  | Ok lastrowid =>
      (Ok {| PurgeEvent.id := Some lastrowid; PurgeEvent.origin_id := origin_id;
             PurgeEvent.purge_type := purge_type; PurgeEvent.target := target;
             PurgeEvent.status := "queued";
             PurgeEvent.triggered_by := triggered_by;
             PurgeEvent.created_at := Some ts |}, db')
  | Raise e => (Raise e, db')
  end.

Module Status.
Record t := {
  total_origins : nat;
  total_rules : nat;
  total_purges : nat;
  purges_24h : nat;
  by_provider : gmap string nat;
  by_status : gmap string nat }.
End Status.

(** [d[k] = d.get(k, 0) + 1] *)
Definition count_into (k : string) (d : gmap string nat) : gmap string nat :=
  <[k := (default 0 (d !! k) + 1)%nat]> d.

(** The loop of [cdn_status] over the origins, both dicts at once. *)
Definition tally (origins : list CDNOrigin.t) : gmap string nat * gmap string nat :=
  fold_left
    (fun acc o =>
       (count_into (CDNOrigin.provider o) (fst acc),
        count_into (CDNOrigin.status o) (snd acc)))
    origins (∅, ∅).

(** [sum(d.values())] *)
Definition sum_values (d : gmap string nat) : nat :=
  map_fold (fun _ v acc => (v + acc)%nat) 0%nat d.

(** WHERE created_at > datetime('now','-1 day') *)
Definition in_last_day (now : Clock) (e : PurgeRow.t) : bool :=
  String.ltb (datetime_now_minus_1_day now) (PurgeRow.created_at e).

Definition cdn_status (now : Clock) (db : Database) : Status.t :=
  let origins := list_origins None db in
  let rule_count := length (rows (cache_rules db)) in
  let purge_total := length (rows (purge_events db)) in
  let purges_24h := length (List.filter (in_last_day now) (rows (purge_events db))) in
  let '(by_provider, by_status) := tally origins in
  {| Status.total_origins := length origins;
     Status.total_rules := rule_count;
     Status.total_purges := purge_total;
     Status.purges_24h := purges_24h;
     Status.by_provider := by_provider;
     Status.by_status := by_status |}.

Module Payload.
Record t := {
  exported_at : string;
  origins : list CDNOrigin.t;
  cache_rules : list RuleRow.t;
  recent_purge_events : list PurgeRow.t }.
End Payload.

(** [export_json]: the payload that is dumped to [output_path]. *)
Definition export_json (now : Clock) (db : Database) : Payload.t :=
  let origins := list_origins None db in
  let rules := rows (cache_rules db) in
  let events := firstn 100 (order_by by_created_at_desc (rows (purge_events db))) in
  {| Payload.exported_at := datetime_now_isoformat now;
     Payload.origins := origins;
     Payload.cache_rules := rules;
     Payload.recent_purge_events := events |}.

(** *** Sequences of calls, as [main] issues them one per invocation *)

Inductive Call :=
| AddOrigin (name origin_url cdn_url provider : string) (cache_ttl : Z) (notes : string)
| AddCacheRule (origin_id : Z) (path_pattern : string) (ttl : Z)
    (cache_headers : bool) (rule_type : string)
| PurgeCache (origin_id : Z) (purge_type target triggered_by : string).

Inductive Outcome :=
| Raised (e : Exn)
| NewOrigin (o : option CDNOrigin.t)
| NewRule (r : CacheRule.t)
| NewPurge (p : PurgeEvent.t).

Definition step (w : World) (c : Call) (db : Database) : Outcome * Database :=
  match c with
  | AddOrigin name origin_url cdn_url provider cache_ttl notes =>
      match add_origin w name origin_url cdn_url provider cache_ttl notes db with
      | (Ok o, db') => (NewOrigin o, db')
      | (Raise e, db') => (Raised e, db')
      end
  | AddCacheRule origin_id path_pattern ttl cache_headers rule_type =>
      match add_cache_rule w origin_id path_pattern ttl cache_headers rule_type db with
      | (Ok r, db') => (NewRule r, db')
      | (Raise e, db') => (Raised e, db')
      end
  | PurgeCache origin_id purge_type target triggered_by =>
      match purge_cache w origin_id purge_type target triggered_by db with
      | (Ok p, db') => (NewPurge p, db')
      | (Raise e, db') => (Raised e, db')
      end
  end.

Fixpoint run (script : list (World * Call)) (db : Database) : list Outcome * Database :=
  match script with
  | [] => ([], db)
  | (w, c) :: rest =>
      let '(o, db') := step w c db in
      let '(os, db'') := run rest db' in
      (o :: os, db'')
  end.

(** The invariant of the store: three well-shaped tables, and no two
    origins with the same name (the UNIQUE index). *)
Definition store_ok (db : Database) : Prop :=
  table_ok (cdn_origins db) /\ table_ok (cache_rules db)
  /\ table_ok (purge_events db)
  /\ List.NoDup (map OriginRow.name (rows (cdn_origins db))).

(** The ids handed out by a run, per entity type, in call order. *)
Definition origin_ids (os : list Outcome) : list Z :=
  flat_map (fun o => match o with
                     | NewOrigin (Some x) =>
                         match CDNOrigin.id x with Some i => [i] | None => [] end
                     | _ => []
                     end) os.

Definition rule_ids (os : list Outcome) : list Z :=
  flat_map (fun o => match o with
                     | NewRule x =>
                         match CacheRule.id x with Some i => [i] | None => [] end
                     | _ => []
                     end) os.

Definition purge_ids (os : list Outcome) : list Z :=
  flat_map (fun o => match o with
                     | NewPurge x =>
                         match PurgeEvent.id x with Some i => [i] | None => [] end
                     | _ => []
                     end) os.

End CDN.

(** ** Display helpers *)

Module Display.
Import Timestamps Sqlite CDN.
Local Open Scope Z_scope.

Definition ESC : string := String "027" EmptyString.
Definition GREEN : string := ESC ++ "[0;32m".
Definition RED : string := ESC ++ "[0;31m".
Definition YELLOW : string := ESC ++ "[1;33m".
Definition CYAN : string := ESC ++ "[0;36m".
Definition BLUE : string := ESC ++ "[0;34m".
Definition BOLD : string := ESC ++ "[1m".
Definition NC : string := ESC ++ "[0m".

(** Python's [str] of an int, as an f-string prints it: decimal, a minus
    sign for negatives, no padding. *)
Definition str_int (n : Z) : string := NilZero.string_of_int (Z.to_int n).

(** Python strings are sequences of code points, the strings here are their
    UTF-8 bytes: a character starts at every byte that is not a continuation
    byte (10xxxxxx). *)
Definition is_continuation (a : ascii) : bool :=
  let n := N_of_ascii a in ((128 <=? n) && (n <? 192))%N.

(** [len(s)] *)
Fixpoint py_len (s : string) : nat :=
  match s with
  | EmptyString => O
  | String a s' => if is_continuation a then py_len s' else S (py_len s')
  end.

(** [s[:n]] *)
Fixpoint py_take (n : nat) (s : string) : string :=
  match s with
  | EmptyString => EmptyString
  | String a s' =>
      if is_continuation a then String a (py_take n s')
      else match n with
           | O => EmptyString
           | S n' => String a (py_take n' s')
           end
  end.

Fixpoint spaces (n : nat) : string :=
  match n with
  | O => EmptyString
  | S n' => String " " (spaces n')
  end.

(** The format specs [:<w] and [:>w]: pad with spaces up to [w] characters,
    never cut. *)
Definition ljust (w : nat) (s : string) : string := s ++ spaces (w - py_len s).
Definition rjust (w : nat) (s : string) : string := spaces (w - py_len s) ++ s.

(** The truth value of a [str]. *)
Definition nonempty (s : string) : bool := negb (String.eqb s "").

Definition _ttl_label (ttl : Z) : string :=
  if ttl <? 60 then str_int ttl ++ "s"
  else if ttl <? 3600 then str_int (ttl / 60) ++ "m"
  else if ttl <? 86400 then str_int (ttl / 3600) ++ "h"
  else str_int (ttl / 86400) ++ "d".

(** [{"active": GREEN, "error": RED, "paused": YELLOW}.get(status, NC)] *)
Definition status_colour (status : string) : string :=
  if String.eqb status "active" then GREEN
  else if String.eqb status "error" then RED
  else if String.eqb status "paused" then YELLOW
  else NC.

(** [_print_origin]: the lines it prints, one per [print]; [None] when the
    first f-string raises TypeError, which [{o.id:>3}] does on an id that is
    [None], before anything is printed. *)
Definition _print_origin (o : CDNOrigin.t) : option (list string) :=
  let sc := status_colour (CDNOrigin.status o) in
  match CDNOrigin.id o with
  | None => None
  | Some i =>
      let head :=
        "  " ++ BOLD ++ "[" ++ rjust 3 (str_int i) ++ "]" ++ NC ++ " " ++ CYAN
          ++ CDNOrigin.name o ++ NC ++ "  " ++ BLUE ++ "(" ++ CDNOrigin.provider o
          ++ ")" ++ NC in
      let status :=
        "        Status : " ++ sc ++ CDNOrigin.status o ++ NC ++ "   TTL: "
          ++ _ttl_label (CDNOrigin.cache_ttl o) in
      let origin := "        Origin : " ++ CDNOrigin.origin_url o in
      let cdn := "        CDN    : " ++ CDNOrigin.cdn_url o in
      let purged :=
        match CDNOrigin.last_purge o with
        | Some lp =>
            if nonempty lp
            then ["        Purged : " ++ YELLOW ++ py_take 19 lp ++ NC]
            else []
        | None => []
        end in
      let notes :=
        if nonempty (CDNOrigin.notes o)
        then ["        Notes  : " ++ CDNOrigin.notes o]
        else [] in
      Some (app [head; status; origin; cdn] (app purged (app notes [""])))
  end.

End Display.

(** ** The command line *)

Module CLI.
Import Timestamps Sqlite CDN Display.
Local Open Scope Z_scope.

(** The namespace [parse_args] returns, by sub-command; [NoCmd] when none
    was given. Defaults and [choices] are the parser's business. *)
Inductive Args :=
| ListCmd (provider : option string)
| AddCmd (name origin_url cdn_url provider : string) (cache_ttl : Z) (notes : string)
| RuleCmd (origin_id : Z) (path_pattern : string) (ttl : Z) (rule_type : string)
| PurgeCmd (origin_id : Z) (purge_type target triggered_by : string)
| StatusCmd
| ExportCmd (output : string)
| NoCmd.

(** What stops [main]: an exception out of a call into [sqlite3], an OSError
    of the file system, or one of the two that the code could raise by
    itself (formatting an id that is [None], reading a field of [None]). *)
Inductive PyExn :=
| FromStore (e : Exn)
| OSError
| TypeError
| AttributeError.

(** The file system as one invocation meets it: whether the directory of the
    database can be made, whether the export file can be opened for writing,
    whether it can be written to the end. *)
Record Files := { mkdir_fails : bool; open_fails : bool; write_fails : bool }.


(** What [export] leaves at its output path: nothing, a file that was opened
    (hence emptied) and not written to the end, or the payload. *)
Inductive Output :=
| NoFile
| Truncated (path : string)
| Exported (path : string) (p : Payload.t).

(** What one invocation leaves behind: the lines printed, the file written
    by [export], the exception that ended it if one did, and the database
    as the next [CDNManager()] will find it. *)
Record Invocation := {
  stdout : list string;
  written : Output;
  uncaught : option PyExn;
  store : Database }.

(** The tables [CDNManager()] works on: those of the database file as it
    is, or three empty ones where the file is new (a file left with some of
    them by a constructor that failed is completed by the next one: CREATE
    TABLE IF NOT EXISTS). *)
Definition connect (file : option Database) : Database :=
  match file with
  | Some db => db
  | None => _init_db
  end.

(** [CDNManager()]: what stops it, if anything. It makes the directory and
    runs the script of [_init_db], one call into [sqlite3]. *)
Definition __init__ (fsys : Files) (w : World) : option PyExn :=
  if mkdir_fails fsys then Some OSError
  else if fault_within 1 w then Some (FromStore OperationalError)
  else None.

Definition banner : string :=
  String "010" (BOLD ++ BLUE ++ "╔══ BlackRoad CDN Manager ══╗" ++ NC ++ String "010" "").

(** [for o in origins: _print_origin(o)]: the lines printed, and whether a
    TypeError cut the loop short. *)
Fixpoint print_origins (origins : list CDNOrigin.t) : list string * option PyExn :=
  match origins with
  | [] => ([], None)
  | o :: rest =>
      match _print_origin o with
      | None => ([], Some TypeError)
      | Some lines =>
          let '(more, exn) := print_origins rest in
          (app lines more, exn)
      end
  end.

(** The order of [sorted] on the items of a dict: by key, then by value. *)
Definition item_le (a b : string * nat) : bool :=
  match String.compare (fst a) (fst b) with
  | Lt => true
  | Eq => Nat.leb (snd a) (snd b)
  | Gt => false
  end.

(** [sorted(d.items())] *)
Definition sorted_items (d : gmap string nat) : list (string * nat) :=
  order_by item_le (map_to_list d).

Definition str_nat (n : nat) : string := str_int (Z.of_nat n).

Definition str_id (i : option Z) : string :=
  match i with
  | Some i => str_int i
  | None => "None"
  end.

Definition provider_line (item : string * nat) : string :=
  "    " ++ CYAN ++ ljust 20 (fst item) ++ NC ++ " " ++ str_nat (snd item).

Definition status_lines (s : Status.t) : list string :=
  let title := "  " ++ BOLD ++ "CDN Fleet Status" ++ NC in
  let origins :=
    "  " ++ ljust 22 "Origins" ++ "  " ++ CYAN ++ str_nat (Status.total_origins s) ++ NC in
  let rules := "  " ++ ljust 22 "Cache Rules" ++ "  " ++ str_nat (Status.total_rules s) in
  let purges := "  " ++ ljust 22 "Total Purges" ++ "  " ++ str_nat (Status.total_purges s) in
  let recent :=
    "  " ++ ljust 22 "Purges (24 h)" ++ "  " ++ YELLOW
      ++ str_nat (Status.purges_24h s) ++ NC in
  let by_provider :=
    if decide (Status.by_provider s = ∅) then []
    else String "010" ("  " ++ BOLD ++ "By Provider:" ++ NC)
         :: map provider_line (sorted_items (Status.by_provider s)) in
  app [title; origins; rules; purges; recent] (app by_provider [""]).

(** An invocation that an exception ends after the banner. *)
Definition stopped (e : PyExn) (db : Database) : Invocation :=
  {| stdout := [banner]; written := NoFile; uncaught := Some e; store := db |}.

(** [main], after the arguments are parsed. [help] is what
    [parser.print_help()] writes. The constructor comes first, then the
    banner, then the sub-command, which meets the world as the constructor's
    one storage operation has left it. *)
Definition main (help : string) (args : Args) (fsys : Files) (w : World)
    (file : option Database) : Invocation :=
  let db := connect file in
  match __init__ fsys w with
  | Some e => {| stdout := []; written := NoFile; uncaught := Some e; store := db |}
  | None =>
      let w := later 1 w in
      match args with
      | ListCmd provider =>
          match reading 1 w (list_origins provider db) with
          | Raise e => stopped (FromStore e) db
          | Ok [] =>
              {| stdout := [banner; "  " ++ YELLOW ++ "No origins registered." ++ NC
                                      ++ String "010" ""];
                 written := NoFile; uncaught := None; store := db |}
          | Ok origins =>
              let '(lines, exn) := print_origins origins in
              let title :=
                "  " ++ BOLD ++ "CDN Origins (" ++ str_nat (length origins) ++ ")" ++ NC
                  ++ String "010" "" in
              {| stdout := banner :: title :: lines;
                 written := NoFile; uncaught := exn; store := db |}
          end
      | AddCmd name origin_url cdn_url provider cache_ttl notes =>
          match add_origin w name origin_url cdn_url provider cache_ttl notes db with
          | (Ok (Some o), db') =>
              {| stdout := [banner; "  " ++ GREEN ++ "✓ Origin registered: ["
                                      ++ str_id (CDNOrigin.id o) ++ "] " ++ CDNOrigin.name o
                                      ++ NC ++ String "010" ""];
                 written := NoFile; uncaught := None; store := db' |}
          | (Ok None, db') => stopped AttributeError db'
          | (Raise e, db') => stopped (FromStore e) db'
          end
      | RuleCmd origin_id path_pattern ttl rule_type =>
          match add_cache_rule w origin_id path_pattern ttl true rule_type db with
          | (Ok r, db') =>
              {| stdout := [banner; "  " ++ GREEN ++ "✓ Rule [" ++ str_id (CacheRule.id r)
                                      ++ "]: " ++ path_pattern ++ " → TTL " ++ _ttl_label ttl
                                      ++ NC ++ String "010" ""];
                 written := NoFile; uncaught := None; store := db' |}
          | (Raise e, db') => stopped (FromStore e) db'
          end
      | PurgeCmd origin_id purge_type target triggered_by =>
          match purge_cache w origin_id purge_type target triggered_by db with
          | (Ok ev, db') =>
              {| stdout := [banner;
                            "  " ++ GREEN ++ "✓ Purge queued (event #"
                              ++ str_id (PurgeEvent.id ev) ++ ")" ++ NC;
                            "  " ++ YELLOW ++ "Origin #" ++ str_int origin_id ++ "  type="
                              ++ purge_type ++ "  target=" ++ target ++ NC
                              ++ String "010" ""];
                 written := NoFile; uncaught := None; store := db' |}
          | (Raise e, db') => stopped (FromStore e) db'
          end
      | StatusCmd =>
          match reading 4 w (cdn_status (clock w) db) with
          | Raise e => stopped (FromStore e) db
          | Ok s =>
              {| stdout := banner :: status_lines s;
                 written := NoFile; uncaught := None; store := db |}
          end
      | ExportCmd output =>
          match reading 3 w (export_json (clock w) db) with
          | Raise e => stopped (FromStore e) db
          | Ok payload =>
              if String.eqb output "" || open_fails fsys then stopped OSError db
              else if write_fails fsys
              then {| stdout := [banner]; written := Truncated output;
                      uncaught := Some OSError; store := db |}
              else
                {| stdout := [banner; "  " ++ GREEN ++ "✓ Exported to: " ++ output ++ NC
                                        ++ String "010" ""];
                   written := Exported output payload;
                   uncaught := None; store := db |}
          end
      | NoCmd =>
          {| stdout := [banner; help; ""]; written := NoFile; uncaught := None;
             store := db |}
      end
  end.

End CLI.

(** * Facts *)

(** ** TEXT under the BINARY collation: [String.compare] *)

Module TextOrder.

Lemma compare_refl (s : string) : String.compare s s = Eq.
Proof.
  induction s as [|a s IH]; simpl; [reflexivity|].
  unfold Ascii.compare. now rewrite N.compare_refl.
Qed.

Lemma ascii_compare_trans (a b c : ascii) (o : comparison) :
  Ascii.compare a b = o -> Ascii.compare b c = o -> Ascii.compare a c = o.
Proof.
  unfold Ascii.compare. destruct o; intros H1 H2.
  - apply N.compare_eq_iff in H1, H2. apply N.compare_eq_iff. congruence.
  - rewrite N.compare_lt_iff in *. lia.
  - rewrite N.compare_gt_iff in *. lia.
Qed.

Lemma compare_lt_trans (s1 s2 s3 : string) :
  String.compare s1 s2 = Lt -> String.compare s2 s3 = Lt ->
  String.compare s1 s3 = Lt.
Proof.
  revert s2 s3. induction s1 as [|a s1 IH]; intros [|b s2] [|c s3]; simpl;
    try congruence.
  destruct (Ascii.compare a b) eqn:Hab; try discriminate;
    destruct (Ascii.compare b c) eqn:Hbc; try discriminate; intros H1 H2.
  - rewrite (ascii_compare_trans _ _ _ _ Hab Hbc). eauto.
  - apply Ascii.compare_eq_iff in Hab. subst. now rewrite Hbc.
  - apply Ascii.compare_eq_iff in Hbc. subst. now rewrite Hab.
  - now rewrite (ascii_compare_trans _ _ _ _ Hab Hbc).
Qed.

Lemma compare_cons (a b : ascii) (s t : string) :
  String.compare (String a s) (String b t) =
  match Ascii.compare a b with Eq => String.compare s t | c => c end.
Proof. cbn [String.compare]. now destruct (Ascii.compare a b). Qed.

Lemma leb_refl (s : string) : String.leb s s = true.
Proof. unfold String.leb. now rewrite compare_refl. Qed.

Lemma leb_trans (s1 s2 s3 : string) :
  String.leb s1 s2 = true -> String.leb s2 s3 = true -> String.leb s1 s3 = true.
Proof.
  unfold String.leb.
  destruct (String.compare s1 s2) eqn:H12; try discriminate;
    destruct (String.compare s2 s3) eqn:H23; try discriminate; intros _ _.
  - apply String.compare_eq_iff in H12, H23. subst. now rewrite compare_refl.
  - apply String.compare_eq_iff in H12. subst. now rewrite H23.
  - apply String.compare_eq_iff in H23. subst. now rewrite H12.
  - now rewrite (compare_lt_trans _ _ _ H12 H23).
Qed.

Lemma leb_false_flip (s1 s2 : string) :
  String.leb s1 s2 = false -> String.leb s2 s1 = true.
Proof.
  intros H. destruct (String.leb_total s1 s2) as [H'|H']; congruence.
Qed.

(** Prefixes of equal length are compared first. *)
Lemma compare_app (x y s t : string) :
  String.length x = String.length y ->
  String.compare (x ++ s) (y ++ t) =
  match String.compare x y with Eq => String.compare s t | c => c end.
Proof.
  revert y. induction x as [|a x IH]; intros [|b y]; simpl; try discriminate.
  - reflexivity.
  - intros [= Hlen]. destruct (Ascii.compare a b); auto.
Qed.

Lemma app_sep_inj (x y s t : string) (a b : ascii) :
  String.length x = String.length y ->
  x ++ String a s = y ++ String b t -> a = b.
Proof.
  revert y. induction x as [|c x IH]; intros [|d y]; simpl; try discriminate.
  - intros _ [= ? _]. assumption.
  - intros [= Hlen] [= _ Heq]. eauto.
Qed.

End TextOrder.

(** ** The printed timestamps *)

Module TimestampFacts.
Import Timestamps TextOrder.
Local Open Scope Z_scope.

Lemma append_nil (b : string) : (EmptyString ++ b = b)%string.
Proof. reflexivity. Qed.

Lemma append_cons (x : ascii) (a b : string) :
  (String x a ++ b = String x (a ++ b))%string.
Proof. reflexivity. Qed.

Lemma append_assoc (a b c : string) : ((a ++ b) ++ c = a ++ (b ++ c))%string.
Proof.
  induction a as [|x a IH]; [reflexivity|].
  rewrite !append_cons. now rewrite IH.
Qed.

Lemma length_append (a b : string) :
  String.length (a ++ b) = (String.length a + String.length b)%nat.
Proof.
  induction a as [|x a IH]; [reflexivity|].
  rewrite append_cons. cbn [String.length]. now rewrite IH.
Qed.

Lemma length_pad (k : nat) (v : Z) : String.length (pad k v) = k.
Proof.
  revert v. induction k as [|k IH]; intros v; simpl; [reflexivity|].
  rewrite length_append, IH. simpl. lia.
Qed.

Lemma digit_compare (a b : Z) :
  Ascii.compare (digit a) (digit b) = (a mod 10 ?= b mod 10).
Proof.
  unfold Ascii.compare, digit.
  pose proof (Z.mod_pos_bound a 10 ltac:(lia)) as Ha.
  pose proof (Z.mod_pos_bound b 10 ltac:(lia)) as Hb.
  rewrite !N_ascii_embedding by lia.
  rewrite <- N2Z.inj_compare, !N2Z.inj_add, !Z2N.id by lia.
  apply Z.add_compare_mono_l.
Qed.

(** Comparing quotient and remainder in turn is comparing the numbers. *)
Lemma compare_divmod (B a b : Z) (o : comparison) :
  0 < B ->
  match a / B ?= b / B with Eq => match a mod B ?= b mod B with Eq => o | c => c end | c => c end
  = match a ?= b with Eq => o | c => c end.
Proof.
  intros HB.
  pose proof (Z.div_mod a B ltac:(lia)) as Ea.
  pose proof (Z.div_mod b B ltac:(lia)) as Eb.
  pose proof (Z.mod_pos_bound a B HB) as Ba.
  pose proof (Z.mod_pos_bound b B HB) as Bb.
  destruct (Z.compare_spec (a / B) (b / B)) as [Hq|Hq|Hq].
  - destruct (Z.compare_spec (a mod B) (b mod B)) as [Hr|Hr|Hr];
      destruct (Z.compare_spec a b); try reflexivity; exfalso; nia.
  - destruct (Z.compare_spec a b); try reflexivity; exfalso; nia.
  - destruct (Z.compare_spec a b); try reflexivity; exfalso; nia.
Qed.

(** Zero-padded numbers of the same width compare as the numbers do. *)
Lemma pad_compare (k : nat) (a b : Z) (s t : string) :
  String.compare (pad k a ++ s) (pad k b ++ t) =
  match a mod 10 ^ Z.of_nat k ?= b mod 10 ^ Z.of_nat k with
  | Eq => String.compare s t
  | c => c
  end.
Proof.
  revert a b s t. induction k as [|k IH]; intros a b s t.
  - simpl. rewrite !Z.mod_1_r. reflexivity.
  - cbn [pad]. rewrite !append_assoc, !append_cons, !append_nil.
    rewrite IH, compare_cons, digit_compare.
    replace (10 ^ Z.of_nat (S k)) with (10 * 10 ^ Z.of_nat k)
      by (rewrite Nat2Z.inj_succ, Z.pow_succ_r; lia).
    assert (Hp : 0 < 10 ^ Z.of_nat k) by (apply Z.pow_pos_nonneg; lia).
    rewrite <- (compare_divmod 10 (a mod (10 * 10 ^ Z.of_nat k))
                 (b mod (10 * 10 ^ Z.of_nat k))) by lia.
    assert (Hd : forall x, x mod (10 * 10 ^ Z.of_nat k) / 10 = (x / 10) mod 10 ^ Z.of_nat k).
    { intros x. rewrite Z.rem_mul_r by lia.
      rewrite (Z.mul_comm 10), Z.div_add by lia.
      rewrite (Z.div_small (x mod 10) 10) by (apply Z.mod_pos_bound; lia). lia. }
    assert (Hm : forall x, (x mod (10 * 10 ^ Z.of_nat k)) mod 10 = x mod 10).
    { intros x. rewrite Z.rem_mul_r by lia.
      rewrite (Z.mul_comm 10), Z.mod_add by lia. apply Z.mod_mod. lia. }
    rewrite !Hd, !Hm. reflexivity.
Qed.

Lemma pad_compare_small (k : nat) (a b : Z) (s t : string) :
  0 <= a < 10 ^ Z.of_nat k -> 0 <= b < 10 ^ Z.of_nat k ->
  String.compare (pad k a ++ s) (pad k b ++ t) =
  match a ?= b with Eq => String.compare s t | c => c end.
Proof. intros Ha Hb. rewrite pad_compare, !Z.mod_small by lia. reflexivity. Qed.

(** *** The calendar is monotone *)

Lemma era_scan_spec (n : nat) (prev i j : Z) :
  era_scan prev i n = true -> i <= j < i + Z.of_nat n ->
  (1 <= snd (fst (civil_of_doe j)) <= 12 /\ 1 <= snd (civil_of_doe j) <= 31)
  /\ (if Z.eq_dec j i then prev else date_key (civil_of_doe (j - 1)))
     < date_key (civil_of_doe j).
Proof.
  revert prev i. induction n as [|n IH]; intros prev i H Hj; [lia|].
  cbn [era_scan] in H. destruct (civil_of_doe i) as [[y m] d] eqn:Ei.
  repeat (apply andb_prop in H as [H ?]).
  destruct (Z.eq_dec j i) as [->|Hne].
  - rewrite Ei. cbn [fst snd].
    repeat match goal with
           | E : (_ <=? _) = true |- _ => apply Z.leb_le in E
           | E : (_ <? _) = true |- _ => apply Z.ltb_lt in E
           end. lia.
  - match goal with E : era_scan _ _ _ = true |- _ =>
      destruct (IH _ _ E ltac:(lia)) as [Hr Hk] end.
    split; [exact Hr|].
    destruct (Z.eq_dec j (i + 1)) as [->|]; [|exact Hk].
    replace (i + 1 - 1) with i by lia. now rewrite Ei.
Qed.

Lemma era_checked : era_scan 0 0 (Z.to_nat 146097) = true.
Proof. vm_cast_no_check (eq_refl true). Qed.

Lemma era_step (i : Z) :
  0 <= i < 146096 ->
  date_key (civil_of_doe i) < date_key (civil_of_doe (i + 1)).
Proof.
  intros Hi.
  destruct (era_scan_spec _ _ _ (i + 1) era_checked ltac:(lia)) as [_ H].
  destruct (Z.eq_dec (i + 1) 0); [lia|].
  now replace (i + 1 - 1) with i in H by lia.
Qed.

Lemma civil_of_doe_range (i : Z) :
  0 <= i <= 146096 ->
  1 <= snd (fst (civil_of_doe i)) <= 12 /\ 1 <= snd (civil_of_doe i) <= 31.
Proof.
  intros Hi. now destruct (era_scan_spec _ _ _ i era_checked ltac:(lia)).
Qed.

Lemma civil_of_doe_mono (i j : Z) :
  0 <= i -> i < j -> j <= 146096 ->
  date_key (civil_of_doe i) < date_key (civil_of_doe j).
Proof.
  intros Hi Hij Hj.
  replace j with (i + Z.of_nat (S (Z.to_nat (j - i - 1)))) in * by lia.
  generalize dependent (Z.to_nat (j - i - 1)). clear j.
  intros n _ Hn. induction n as [|n IH].
  - apply era_step. lia.
  - transitivity (date_key (civil_of_doe (i + Z.of_nat (S n)))).
    + apply IH. lia.
    + replace (i + Z.of_nat (S (S n))) with (i + Z.of_nat (S n) + 1) by lia.
      apply era_step. lia.
Qed.

Lemma date_key_era (z : Z) :
  date_key (civil_from_days z) =
  date_key (civil_of_doe ((z + 719468) mod 146097))
  + 4000000 * ((z + 719468) / 146097).
Proof.
  unfold civil_from_days.
  destruct (civil_of_doe ((z + 719468) mod 146097)) as [[y m] d].
  unfold date_key. lia.
Qed.

Lemma civil_from_days_range (z : Z) :
  1 <= snd (fst (civil_from_days z)) <= 12 /\ 1 <= snd (civil_from_days z) <= 31.
Proof.
  pose proof (Z.mod_pos_bound (z + 719468) 146097 ltac:(lia)) as Hb.
  pose proof (civil_of_doe_range ((z + 719468) mod 146097) ltac:(lia)) as H.
  unfold civil_from_days.
  destruct (civil_of_doe ((z + 719468) mod 146097)) as [[y m] d]. exact H.
Qed.

(** A later day has a later date. *)
Lemma civil_from_days_mono (z1 z2 : Z) :
  z1 < z2 -> date_key (civil_from_days z1) < date_key (civil_from_days z2).
Proof.
  intros Hlt. rewrite !date_key_era.
  set (a := z1 + 719468). set (b := z2 + 719468).
  assert (Hab : a < b) by (unfold a, b; lia).
  pose proof (Z.div_mod a 146097 ltac:(lia)) as Ea.
  pose proof (Z.div_mod b 146097 ltac:(lia)) as Eb.
  pose proof (Z.mod_pos_bound a 146097 ltac:(lia)) as Ba.
  pose proof (Z.mod_pos_bound b 146097 ltac:(lia)) as Bb.
  assert (Hlast : date_key (civil_of_doe 146096) = 4000229) by (vm_compute; reflexivity).
  assert (Hfirst : date_key (civil_of_doe 0) = 301) by (vm_compute; reflexivity).
  assert (Hup : forall i, 0 <= i <= 146096 -> date_key (civil_of_doe i) <= 4000229).
  { intros i Hi. destruct (Z.eq_dec i 146096) as [->|]; [lia|].
    pose proof (civil_of_doe_mono i 146096 ltac:(lia) ltac:(lia) ltac:(lia)). lia. }
  assert (Hlo : forall i, 0 <= i <= 146096 -> 301 <= date_key (civil_of_doe i)).
  { intros i Hi. destruct (Z.eq_dec i 0) as [->|]; [lia|].
    pose proof (civil_of_doe_mono 0 i ltac:(lia) ltac:(lia) ltac:(lia)). lia. }
  destruct (Z.lt_trichotomy (a / 146097) (b / 146097)) as [Hq|[Hq|Hq]].
  - pose proof (Hup (a mod 146097) ltac:(lia)).
    pose proof (Hlo (b mod 146097) ltac:(lia)). lia.
  - rewrite Hq.
    pose proof (civil_of_doe_mono (a mod 146097) (b mod 146097)
                  ltac:(lia) ltac:(lia) ltac:(lia)). lia.
  - exfalso. nia.
Qed.

Lemma civil_from_days_compare (z1 z2 : Z) :
  (date_key (civil_from_days z1) ?= date_key (civil_from_days z2)) = (z1 ?= z2).
Proof.
  destruct (Z.compare_spec z1 z2) as [->|H|H].
  - apply Z.compare_refl.
  - apply Z.compare_lt_iff. now apply civil_from_days_mono.
  - apply Z.compare_gt_iff. now apply civil_from_days_mono.
Qed.

Lemma year_range (s : Z) :
  valid_ts s -> 0 <= fst (fst (civil_from_days (s / 86400))) <= 9999.
Proof.
  unfold valid_ts. intros Hs.
  assert (Hd : -719528 <= s / 86400 <= 2932896).
  { pose proof (Z.div_mod s 86400 ltac:(lia)).
    pose proof (Z.mod_pos_bound s 86400 ltac:(lia)). lia. }
  assert (Hlo : 101 <= date_key (civil_from_days (s / 86400))).
  { destruct (Z.eq_dec (s / 86400) (-719528)) as [->|]; [vm_compute; discriminate|].
    pose proof (civil_from_days_mono (-719528) (s / 86400) ltac:(lia)) as H.
    change (date_key (civil_from_days (-719528))) with 101 in H. lia. }
  assert (Hhi : date_key (civil_from_days (s / 86400)) <= 99991231).
  { destruct (Z.eq_dec (s / 86400) 2932896) as [->|]; [vm_compute; discriminate|].
    pose proof (civil_from_days_mono (s / 86400) 2932896 ltac:(lia)) as H.
    change (date_key (civil_from_days 2932896)) with 99991231 in H. lia. }
  pose proof (civil_from_days_range (s / 86400)) as Hr.
  destruct (civil_from_days (s / 86400)) as [[y m] d].
  unfold date_key in *. cbn [fst snd] in *. lia.
Qed.

(** "YYYY-MM-DD?HH:MM:SS" as its six fields. *)
Lemma date_time_fields (sep : ascii) (s : Z) :
  date_time sep s =
  (pad 4 (fst (fst (civil_from_days (s / 86400)))) ++ String "-"
  (pad 2 (snd (fst (civil_from_days (s / 86400)))) ++ String "-"
  (pad 2 (snd (civil_from_days (s / 86400))) ++ String sep
  (pad 2 (s mod 86400 / 3600) ++ String ":"
  (pad 2 (s mod 86400 mod 3600 / 60) ++ String ":"
  (pad 2 (s mod 86400 mod 60) ++ ""))))))%string.
Proof.
  unfold date_time. destruct (civil_from_days (s / 86400)) as [[y m] d].
  reflexivity.
Qed.

Lemma length_date_time (sep : ascii) (s : Z) :
  exists date rest, date_time sep s = (date ++ String sep rest)%string
                    /\ String.length date = 10%nat.
Proof.
  rewrite date_time_fields.
  eexists (pad 4 _ ++ String "-" (pad 2 _ ++ String "-" (pad 2 _)))%string, _.
  split.
  - rewrite !append_assoc, !append_cons, !append_assoc, !append_cons. reflexivity.
  - rewrite !length_append. cbn [String.length]. rewrite !length_append.
    cbn [String.length]. rewrite !length_pad. reflexivity.
Qed.

Lemma ascii_compare_refl (a : ascii) : Ascii.compare a a = Eq.
Proof. unfold Ascii.compare. apply N.compare_refl. Qed.

Lemma compare_div_mod (B a b : Z) :
  0 < B ->
  (a ?= b) = match a / B ?= b / B with Eq => a mod B ?= b mod B | c => c end.
Proof.
  intros HB. pose proof (compare_divmod B a b Eq HB) as H.
  destruct (a / B ?= b / B), (a mod B ?= b mod B), (a ?= b);
    congruence.
Qed.

Lemma hms_compare (r1 r2 : Z) :
  match r1 / 3600 ?= r2 / 3600 with
  | Eq => match r1 mod 3600 / 60 ?= r2 mod 3600 / 60 with
          | Eq => match r1 mod 60 ?= r2 mod 60 with Eq => Eq | c => c end
          | c => c
          end
  | c => c
  end = (r1 ?= r2).
Proof.
  pose proof (Z.div_mod r1 3600 ltac:(lia)). pose proof (Z.div_mod r2 3600 ltac:(lia)).
  pose proof (Z.mod_pos_bound r1 3600 ltac:(lia)).
  pose proof (Z.mod_pos_bound r2 3600 ltac:(lia)).
  pose proof (Z.div_mod (r1 mod 3600) 60 ltac:(lia)).
  pose proof (Z.div_mod (r2 mod 3600) 60 ltac:(lia)).
  pose proof (Z.mod_pos_bound (r1 mod 3600) 60 ltac:(lia)).
  pose proof (Z.mod_pos_bound (r2 mod 3600) 60 ltac:(lia)).
  pose proof (Z.div_mod r1 60 ltac:(lia)). pose proof (Z.div_mod r2 60 ltac:(lia)).
  pose proof (Z.mod_pos_bound r1 60 ltac:(lia)).
  pose proof (Z.mod_pos_bound r2 60 ltac:(lia)).
  destruct (Z.compare_spec (r1 / 3600) (r2 / 3600));
    destruct (Z.compare_spec (r1 mod 3600 / 60) (r2 mod 3600 / 60));
    destruct (Z.compare_spec (r1 mod 60) (r2 mod 60));
    destruct (Z.compare_spec r1 r2); try reflexivity; exfalso; lia.
Qed.

(** Timestamps of the same format compare as the instants they print. *)
Lemma date_time_compare (sep : ascii) (s1 s2 : Z) :
  valid_ts s1 -> valid_ts s2 ->
  String.compare (date_time sep s1) (date_time sep s2) = (s1 ?= s2).
Proof.
  intros V1 V2.
  pose proof (year_range s1 V1) as Y1. pose proof (year_range s2 V2) as Y2.
  pose proof (civil_from_days_range (s1 / 86400)) as R1.
  pose proof (civil_from_days_range (s2 / 86400)) as R2.
  pose proof (civil_from_days_compare (s1 / 86400) (s2 / 86400)) as Hk.
  rewrite !date_time_fields.
  destruct (civil_from_days (s1 / 86400)) as [[y1 m1] d1].
  destruct (civil_from_days (s2 / 86400)) as [[y2 m2] d2].
  cbn [fst snd] in *. unfold date_key in Hk.
  pose proof (Z.mod_pos_bound s1 86400 ltac:(lia)) as B1.
  pose proof (Z.mod_pos_bound s2 86400 ltac:(lia)) as B2.
  set (r1 := s1 mod 86400) in *. set (r2 := s2 mod 86400) in *.
  assert (F : forall r, 0 <= r < 86400 ->
            0 <= r / 3600 < 100 /\ 0 <= r mod 3600 / 60 < 100 /\ 0 <= r mod 60 < 100).
  { intros r Hr.
    pose proof (Z.div_mod r 3600 ltac:(lia)).
    pose proof (Z.mod_pos_bound r 3600 ltac:(lia)).
    pose proof (Z.div_mod (r mod 3600) 60 ltac:(lia)).
    pose proof (Z.mod_pos_bound (r mod 3600) 60 ltac:(lia)).
    pose proof (Z.mod_pos_bound r 60 ltac:(lia)). lia. }
  destruct (F r1 B1) as (? & ? & ?). destruct (F r2 B2) as (? & ? & ?).
  repeat (rewrite pad_compare_small by (simpl; lia);
          rewrite ?compare_cons, ?ascii_compare_refl).
  cbn [String.compare]. rewrite (hms_compare r1 r2).
  rewrite (compare_div_mod 86400 s1 s2) by lia. fold r1 r2.
  rewrite <- Hk.
  destruct (Z.compare_spec y1 y2); destruct (Z.compare_spec m1 m2);
    destruct (Z.compare_spec d1 d2);
    destruct (Z.compare_spec (y1 * 10000 + m1 * 100 + d1) (y2 * 10000 + m2 * 100 + d2));
    try reflexivity; exfalso; lia.
Qed.

End TimestampFacts.

(** ** Tables, ORDER BY and transactions *)

Module SqliteFacts.
Import Sqlite.
Local Open Scope Z_scope.

Section OrderBy.
Context {R : Type} (le : R -> R -> bool).
Hypothesis le_total : forall a b, le a b = true \/ le b a = true.
Hypothesis le_trans : forall a b c, le a b = true -> le b c = true -> le a c = true.

Lemma insert_sorted_perm (x : R) (l : list R) :
  Permutation (insert_sorted le x l) (x :: l).
Proof.
  induction l as [|y l IH]; cbn [insert_sorted]; [reflexivity|].
  destruct (le x y); [reflexivity|].
  rewrite IH. apply perm_swap.
Qed.

Lemma order_by_perm (l : list R) : Permutation (order_by le l) l.
Proof.
  induction l as [|x l IH]; cbn; [reflexivity|].
  fold (order_by le l). rewrite insert_sorted_perm. now constructor.
Qed.

Lemma insert_sorted_sorted (x : R) (l : list R) :
  Sorted (fun a b => le a b = true) l ->
  Sorted (fun a b => le a b = true) (insert_sorted le x l).
Proof.
  induction 1 as [|y l Hs IH Hhd]; cbn [insert_sorted].
  - repeat constructor.
  - destruct (le x y) eqn:Hxy.
    + constructor; [constructor; assumption|]. constructor. exact Hxy.
    + constructor; [exact IH|].
      assert (Hyx : le y x = true) by (destruct (le_total x y); [congruence|assumption]).
      destruct Hhd as [|z l' Hyz]; cbn [insert_sorted].
      * constructor. exact Hyx.
      * destruct (le x z); constructor; assumption.
Qed.

Lemma order_by_sorted (l : list R) :
  StronglySorted (fun a b => le a b = true) (order_by le l).
Proof.
  apply Sorted_StronglySorted.
  - intros a b c. apply le_trans.
  - induction l as [|x l IH]; cbn; [constructor|].
    now apply insert_sorted_sorted.
Qed.
End OrderBy.

Lemma StronglySorted_app_cross {A} (P : A -> A -> Prop) (l1 l2 : list A) :
StronglySorted P (l1 ++ l2) ->
forall x y, In x l1 -> In y l2 -> P x y.
Proof.
induction l1 as [|a l1 IH]; cbn; intros Hs x y Hx Hy; [contradiction|].
apply StronglySorted_inv in Hs as [Hs Hall].
destruct Hx as [->|Hx]; [|now apply IH].
rewrite List.Forall_forall in Hall. apply Hall. apply in_or_app. now right.
Qed.

Lemma StronglySorted_app_l {A} (P : A -> A -> Prop) (l1 l2 : list A) :
StronglySorted P (l1 ++ l2) -> StronglySorted P l1.
Proof.
induction l1 as [|a l1 IH]; cbn; intros Hs; [constructor|].
apply StronglySorted_inv in Hs as [Hs Hall]. constructor; [auto|].
rewrite List.Forall_forall in *. intros x Hx. apply Hall, in_or_app. now left.
Qed.

Lemma StronglySorted_firstn {A} (P : A -> A -> Prop) (n : nat) (l : list A) :
StronglySorted P l -> StronglySorted P (firstn n l).
Proof.
intros Hs. rewrite <- (firstn_skipn n l) in Hs.
now apply StronglySorted_app_l in Hs.
Qed.

Lemma StronglySorted_map {A B} (P : A -> A -> Prop) (Q : B -> B -> Prop)
  (f : A -> B) (l : list A) :
(forall a b, P a b -> Q (f a) (f b)) ->
StronglySorted P l -> StronglySorted Q (map f l).
Proof.
intros Hf. induction 1 as [|a l Hs IH Hall]; cbn; constructor; [assumption|].
rewrite List.Forall_forall in *. intros y Hy.
apply in_map_iff in Hy as (x & <- & Hx). auto.
Qed.

(** *** AUTOINCREMENT *)

Section Autoincrement.
Context {R : Type} `{Row R}.

Lemma max_rowid_cons (x : R) (rs : list R) :
  max_rowid (x :: rs) = Z.max (rowid x) (max_rowid rs).
Proof. reflexivity. Qed.

Lemma max_rowid_nonneg (rs : list R) : 0 <= max_rowid rs.
Proof.
  induction rs as [|x rs IH]; [reflexivity|]. rewrite max_rowid_cons. lia.
Qed.

Lemma max_rowid_ge (rs : list R) (r : R) : In r rs -> rowid r <= max_rowid rs.
Proof.
  induction rs as [|x rs IH]; [contradiction|].
  rewrite max_rowid_cons. intros [Hx|Hin]; [subst; lia|].
  specialize (IH Hin). lia.
Qed.

Lemma max_rowid_snoc (rs : list R) (r : R) :
  max_rowid (rs ++ [r]) = Z.max (max_rowid rs) (rowid r).
Proof.
  induction rs as [|x rs IH].
  - cbn [app]. rewrite max_rowid_cons. change (max_rowid []) with 0. lia.
  - cbn [app]. rewrite !max_rowid_cons, IH. lia.
Qed.

(** The id given to a new row is above every id in the table. *)
Lemma insert_row_fresh (mk : Z -> R) (t : Table R) (r : R) :
  In r (rows t) -> rowid r < snd (insert_row mk t).
Proof.
  intros Hin. cbn [insert_row snd]. unfold next_rowid.
  pose proof (max_rowid_ge _ _ Hin). lia.
Qed.

(** Each insertion moves the next id up by one. *)
Lemma insert_row_next (mk : Z -> R) (t : Table R) :
  (forall i, rowid (mk i) = i) ->
  next_rowid (fst (insert_row mk t)) = next_rowid t + 1.
Proof.
  intros Hmk. unfold insert_row, next_rowid. cbn [fst rows seq].
  rewrite max_rowid_snoc, Hmk. lia.
Qed.
End Autoincrement.

Section TableShape.
Context {R : Type} `{Row R}.

Lemma table_ok_max (t : Table R) : table_ok t -> max_rowid (rows t) <= Z.max 0 (seq t).
Proof.
  intros [_ Hall]. induction Hall as [|r rs Hr _ IH].
  - change (max_rowid []) with 0. lia.
  - rewrite max_rowid_cons. lia.
Qed.

Lemma sorted_snoc (l : list Z) (x : Z) :
  StronglySorted Z.lt l -> Forall (fun y => y < x) l -> StronglySorted Z.lt (l ++ [x]).
Proof.
  induction 1 as [|a l Hs IH Ha]; intros Hx; cbn [app].
  - repeat constructor.
  - apply Forall_cons_1 in Hx as [Hax Hx]. constructor; [auto|].
    apply Forall_app. split; [assumption|]. now repeat constructor.
Qed.

(** INSERT keeps the shape, and appends: the new row is the last of a scan. *)
Lemma insert_row_ok (mk : Z -> R) (t : Table R) :
  (forall i, rowid (mk i) = i) -> table_ok t -> table_ok (fst (insert_row mk t)).
Proof.
  intros Hmk Hok. pose proof (table_ok_max t Hok) as Hmax. destruct Hok as [Hs Hall].
  unfold insert_row. cbn [fst]. split; cbn [rows seq].
  - rewrite map_app. cbn [map]. rewrite Hmk. apply sorted_snoc; [assumption|].
    apply Forall_map. eapply List.Forall_impl; [|exact Hall].
    cbn. intros r Hr. unfold next_rowid. lia.
  - apply Forall_app. split.
    + eapply List.Forall_impl; [|exact Hall]. cbn. intros r Hr. unfold next_rowid. lia.
    + constructor; [|constructor]. rewrite Hmk. unfold next_rowid.
      pose proof (max_rowid_nonneg (rows t)). lia.
Qed.

(** UPDATE keeps the shape when it leaves the key alone. *)
Lemma update_rows_ok (cond : R -> bool) (upd : R -> R) (t : Table R) :
  (forall r, rowid (upd r) = rowid r) -> table_ok t -> table_ok (update_rows cond upd t).
Proof.
  intros Hupd [Hs Hall]. unfold update_rows. split; cbn [rows seq].
  - rewrite map_map.
    replace (map (fun r => rowid (if cond r then upd r else r)) (rows t))
      with (map rowid (rows t)); [assumption|].
    apply map_ext. intros r. now destruct (cond r); rewrite ?Hupd.
  - apply Forall_map. eapply List.Forall_impl; [|exact Hall].
    cbn. intros r Hr. now destruct (cond r); rewrite ?Hupd.
Qed.

Lemma empty_table_ok : table_ok (@empty_table R).
Proof. split; constructor. Qed.
End TableShape.

(** *** What a [with] block of one or two writes and a commit does *)

Lemma with_one_write {D A} (stmt : D -> Result (A * D)) (fs : list bool) (d : D) :
  with_connection (cur ← execute stmt; _ ← commit; mret cur) fs d =
  match fs with
  | true :: _ => (Raise OperationalError, d)
  | _ =>
      match stmt d with
      | Raise e => (Raise e, d)
      | Ok (a, d') =>
          match tl fs with
          | true :: _ => (Raise OperationalError, d)
          | _ => (Ok a, d')
          end
      end
  end.
Proof.
  unfold with_connection, mbind, sql_bind, execute, commit, mret, sql_ret, current.
  destruct fs as [|[] [|[] fs]]; cbn; try reflexivity;
    destruct (stmt d) as [[a d']|e]; reflexivity.
Qed.

Lemma with_two_writes {D A B} (s1 : D -> Result (A * D)) (s2 : D -> Result (B * D))
    (fs : list bool) (d : D) :
  with_connection (cur ← execute s1; _ ← execute s2; _ ← commit; mret cur) fs d =
  match fs with
  | true :: _ => (Raise OperationalError, d)
  | _ =>
      match s1 d with
      | Raise e => (Raise e, d)
      | Ok (a, d1) =>
          match tl fs with
          | true :: _ => (Raise OperationalError, d)
          | _ =>
              match s2 d1 with
              | Raise e => (Raise e, d)
              | Ok (_, d2) =>
                  match tl (tl fs) with
                  | true :: _ => (Raise OperationalError, d)
                  | _ => (Ok a, d2)
                  end
              end
          end
      end
  end.
Proof.
  unfold with_connection, mbind, sql_bind, execute, commit, mret, sql_ret, current.
  destruct fs as [|[] [|[] [|[] fs]]]; cbn; try reflexivity;
    destruct (s1 d) as [[a d1]|e]; cbn; try reflexivity;
    destruct (s2 d1) as [[b d2]|e]; reflexivity.
Qed.

Lemma with_query {D A} (q : D -> Result A) (fs : list bool) (d : D) :
  with_connection (query q) fs d =
  (if hd false fs then Raise OperationalError else q d, d).
Proof.
  unfold with_connection, query, commit, current.
  destruct fs as [|[] fs]; cbn; try reflexivity; destruct (q d); reflexivity.
Qed.

Lemma fits_int64_b2z (b : bool) : fits_int64 (Z.b2z b) = true.
Proof. now destruct b. Qed.

Lemma fits_int64_spec (n : Z) :
  fits_int64 n = true <-> -9223372036854775808 <= n <= 9223372036854775807.
Proof. unfold fits_int64. lia. Qed.

End SqliteFacts.

(** ** The store *)

Module CDNFacts.
Import Timestamps Sqlite CDN TextOrder TimestampFacts SqliteFacts.
Local Open Scope Z_scope.

(** *** The three writers, in closed form *)

Lemma fault_within_head (n : nat) (w : World) :
  hd false (storage_faults w) = true -> fault_within (S n) w = true.
Proof.
  unfold fault_within.
  destruct (storage_faults w) as [|[] fs]; [discriminate | reflexivity | discriminate].
Qed.

Lemma purge_cache_eq (w : World) (oid : Z) (pt tg tb : string) (db : Database) :
  purge_cache w oid pt tg tb db =
  if hd false (storage_faults w) then (Raise OperationalError, db)
  else if negb (fits_int64 oid) then (Raise OverflowError, db)
  else if fault_within 3 w then (Raise OperationalError, db)
  else
    (Ok {| PurgeEvent.id := Some (next_rowid (purge_events db));
           PurgeEvent.origin_id := oid; PurgeEvent.purge_type := pt;
           PurgeEvent.target := tg; PurgeEvent.status := "queued";
           PurgeEvent.triggered_by := tb;
           PurgeEvent.created_at := Some (datetime_now_isoformat (clock w)) |},
     {| cdn_origins :=
          update_rows (fun r => OriginRow.id r =? oid)
            (set_last_purge (datetime_now_isoformat (clock w))) (cdn_origins db);
        cache_rules := cache_rules db;
        purge_events :=
          fst (insert_row (purge_row (clock w) oid pt tg "queued" tb) (purge_events db)) |}).
Proof.
  unfold purge_cache, fault_within. rewrite with_two_writes.
  unfold insert_purge_event, update_last_purge.
  destruct (fits_int64 oid); cbn [negb];
    destruct (storage_faults w) as [|[] [|[] [|[] fs]]]; reflexivity.
Qed.

Lemma add_cache_rule_eq (w : World) (oid : Z) (pp : string) (ttl : Z) (ch : bool)
    (rt : string) (db : Database) :
  add_cache_rule w oid pp ttl ch rt db =
  if hd false (storage_faults w) then (Raise OperationalError, db)
  else if negb (fits_int64 oid && fits_int64 ttl) then (Raise OverflowError, db)
  else if fault_within 2 w then (Raise OperationalError, db)
  else
    (Ok {| CacheRule.id := Some (next_rowid (cache_rules db));
           CacheRule.origin_id := oid; CacheRule.path_pattern := pp;
           CacheRule.ttl := ttl; CacheRule.cache_headers := ch;
           CacheRule.rule_type := rt; CacheRule.created_at := None |},
     {| cdn_origins := cdn_origins db;
        cache_rules :=
          fst (insert_row (rule_row (clock w) oid pp ttl (Z.b2z ch) rt) (cache_rules db));
        purge_events := purge_events db |}).
Proof.
  unfold add_cache_rule, fault_within. rewrite with_one_write.
  unfold insert_cache_rule. rewrite fits_int64_b2z, andb_true_r.
  destruct (fits_int64 oid && fits_int64 ttl); cbn [negb];
    destruct (storage_faults w) as [|[] [|[] fs]]; reflexivity.
Qed.

Lemma _get_origin_eq (w : World) (i : Z) (db : Database) :
  _get_origin w i db =
  if hd false (storage_faults w) then Raise OperationalError
  else if negb (fits_int64 i) then Raise OverflowError
  else Ok (option_map origin_of_row
             (find (fun r => OriginRow.id r =? i) (rows (cdn_origins db)))).
Proof.
  unfold _get_origin. rewrite with_query. cbn [fst]. unfold select_origin.
  destruct (hd false (storage_faults w)); [reflexivity|].
  destruct (fits_int64 i); reflexivity.
Qed.

Lemma find_snoc_fresh (l : list OriginRow.t) (r : OriginRow.t) (i : Z) :
  OriginRow.id r = i -> (forall x, In x l -> OriginRow.id x < i) ->
  find (fun x => OriginRow.id x =? i) (l ++ [r]) = Some r.
Proof.
  intros Hr. induction l as [|y l IH]; intros Hlt; cbn [app find].
  - now rewrite Hr, Z.eqb_refl.
  - destruct (Z.eqb_spec (OriginRow.id y) i) as [E|_].
    + specialize (Hlt y (or_introl eq_refl)). lia.
    + apply IH. intros x Hx. apply Hlt. now right.
Qed.

(** The store after the INSERT of [add_origin] is committed. *)
Lemma add_origin_eq (w : World) (name ou cu prov : string) (ttl : Z) (notes : string)
    (db : Database) :
  add_origin w name ou cu prov ttl notes db =
  if hd false (storage_faults w) then (Raise OperationalError, db)
  else if negb (fits_int64 ttl) then (Raise OverflowError, db)
  else if name_taken name db
  then (Raise (IntegrityError "UNIQUE constraint failed: cdn_origins.name"), db)
  else if fault_within 2 w then (Raise OperationalError, db)
  else
    (if fault_within 3 w then Raise OperationalError
     else if negb (fits_int64 (next_rowid (cdn_origins db))) then Raise OverflowError
     else Ok (Some (origin_of_row
                      (origin_row (clock w) name ou cu prov ttl notes
                         (next_rowid (cdn_origins db))))),
     {| cdn_origins :=
          fst (insert_row (origin_row (clock w) name ou cu prov ttl notes) (cdn_origins db));
        cache_rules := cache_rules db;
        purge_events := purge_events db |}).
Proof.
  unfold add_origin. rewrite with_one_write.
  assert (Hget : forall w',
           _get_origin w' (next_rowid (cdn_origins db))
             {| cdn_origins :=
                  fst (insert_row (origin_row (clock w) name ou cu prov ttl notes)
                         (cdn_origins db));
                cache_rules := cache_rules db; purge_events := purge_events db |}
           = if hd false (storage_faults w') then Raise OperationalError
             else if negb (fits_int64 (next_rowid (cdn_origins db))) then Raise OverflowError
             else Ok (Some (origin_of_row (origin_row (clock w) name ou cu prov ttl notes
                                             (next_rowid (cdn_origins db)))))).
  { intros w'. rewrite _get_origin_eq. cbn [cdn_origins insert_row fst rows].
    rewrite (find_snoc_fresh (rows (cdn_origins db))
               (origin_row (clock w) name ou cu prov ttl notes (next_rowid (cdn_origins db)))
               (next_rowid (cdn_origins db))).
    - reflexivity.
    - reflexivity.
    - intros x Hx. apply (insert_row_fresh (fun i => x) (cdn_origins db) x Hx). }
  unfold insert_origin, fault_within.
  destruct (fits_int64 ttl); cbn [negb];
    [|destruct (storage_faults w) as [|[] fs]; reflexivity].
  destruct (name_taken name db);
    [destruct (storage_faults w) as [|[] fs]; reflexivity|].
  cbn [insert_row].
  destruct (storage_faults w) as [|[] [|[] [|[] fs]]] eqn:Ef; cbn; try reflexivity;
    rewrite Hget; unfold later; rewrite Ef; reflexivity.
Qed.

(** [add_origin] either raises with the database as it was, or has committed
    the new row; in the latter case it returns the origin of that row unless
    reading it back fails. *)
Lemma add_origin_cases (w : World) (name ou cu prov : string) (ttl : Z) (notes : string)
    (db : Database) :
  (exists e, add_origin w name ou cu prov ttl notes db = (Raise e, db))
  \/ (name_taken name db = false
      /\ fits_int64 ttl = true
      /\ fault_within 2 w = false
      /\ snd (add_origin w name ou cu prov ttl notes db)
         = {| cdn_origins :=
                fst (insert_row (origin_row (clock w) name ou cu prov ttl notes)
                       (cdn_origins db));
              cache_rules := cache_rules db;
              purge_events := purge_events db |}
      /\ (fst (add_origin w name ou cu prov ttl notes db)
          = Ok (Some (origin_of_row (origin_row (clock w) name ou cu prov ttl notes
                                       (next_rowid (cdn_origins db)))))
          \/ exists e, fst (add_origin w name ou cu prov ttl notes db) = Raise e)).
Proof.
  rewrite add_origin_eq.
  destruct (hd false (storage_faults w)); [left; eauto|].
  destruct (fits_int64 ttl); cbn [negb]; [|left; eauto].
  destruct (name_taken name db); [left; eauto|].
  destruct (fault_within 2 w); [left; eauto|].
  right. cbn [fst snd]. do 4 (split; [reflexivity|]).
  destruct (fault_within 3 w); [right; eauto|].
  destruct (fits_int64 (next_rowid (cdn_origins db))); cbn [negb]; [left|right]; eauto.
Qed.

(** [add_cache_rule] and [purge_cache] either raise with the database as it
    was, or return. *)
Lemma add_cache_rule_cases (w : World) (oid : Z) (pp : string) (ttl : Z) (ch : bool)
    (rt : string) (db : Database) :
  (exists e, add_cache_rule w oid pp ttl ch rt db = (Raise e, db))
  \/ (fits_int64 oid = true /\ fits_int64 ttl = true /\ fault_within 2 w = false
      /\ add_cache_rule w oid pp ttl ch rt db
         = (Ok {| CacheRule.id := Some (next_rowid (cache_rules db));
                  CacheRule.origin_id := oid; CacheRule.path_pattern := pp;
                  CacheRule.ttl := ttl; CacheRule.cache_headers := ch;
                  CacheRule.rule_type := rt; CacheRule.created_at := None |},
            {| cdn_origins := cdn_origins db;
               cache_rules :=
                 fst (insert_row (rule_row (clock w) oid pp ttl (Z.b2z ch) rt)
                        (cache_rules db));
               purge_events := purge_events db |})).
Proof.
  rewrite add_cache_rule_eq.
  destruct (hd false (storage_faults w)); [left; eauto|].
  destruct (fits_int64 oid), (fits_int64 ttl); cbn [negb andb]; try (left; eauto; fail).
  destruct (fault_within 2 w); [left; eauto|]. right. auto.
Qed.

Lemma purge_cache_cases (w : World) (oid : Z) (pt tg tb : string) (db : Database) :
  (exists e, purge_cache w oid pt tg tb db = (Raise e, db))
  \/ (fits_int64 oid = true /\ fault_within 3 w = false
      /\ purge_cache w oid pt tg tb db
         = (Ok {| PurgeEvent.id := Some (next_rowid (purge_events db));
                  PurgeEvent.origin_id := oid; PurgeEvent.purge_type := pt;
                  PurgeEvent.target := tg; PurgeEvent.status := "queued";
                  PurgeEvent.triggered_by := tb;
                  PurgeEvent.created_at := Some (datetime_now_isoformat (clock w)) |},
            {| cdn_origins :=
                 update_rows (fun r => OriginRow.id r =? oid)
                   (set_last_purge (datetime_now_isoformat (clock w))) (cdn_origins db);
               cache_rules := cache_rules db;
               purge_events :=
                 fst (insert_row (purge_row (clock w) oid pt tg "queued" tb)
                        (purge_events db)) |})).
Proof.
  rewrite purge_cache_eq.
  destruct (hd false (storage_faults w)); [left; eauto|].
  destruct (fits_int64 oid); cbn [negb]; [|left; eauto].
  destruct (fault_within 3 w); [left; eauto|]. right. auto.
Qed.

(** SQLite's and Python's clocks never print the same text: the eleventh
    character is a space in one and a T in the other. *)
Lemma formats_differ (c1 c2 : Clock) :
  CURRENT_TIMESTAMP c1 <> datetime_now_isoformat c2.
Proof.
  unfold CURRENT_TIMESTAMP, sqlite_datetime, datetime_now_isoformat.
  destruct (length_date_time " " (unix_seconds c1)) as (d1 & r1 & E1 & L1).
  destruct (length_date_time "T" (unix_seconds c2 + utc_offset c2)) as (d2 & r2 & E2 & L2).
  rewrite E1, E2, append_assoc, append_cons. intros Heq.
  apply app_sep_inj in Heq; [discriminate | congruence].
Qed.

Lemma in_update_rows {R} (cond : R -> bool) (upd : R -> R) (t : Table R) (r : R) :
  In r (rows (update_rows cond upd t)) <->
  exists r0, In r0 (rows t) /\ r = if cond r0 then upd r0 else r0.
Proof.
  unfold update_rows. cbn [rows]. rewrite in_map_iff. firstorder.
Qed.


(** *** The invariant of the store *)

Lemma _init_db_ok : store_ok _init_db.
Proof. repeat split; constructor. Qed.

Lemma name_taken_false (name : string) (db : Database) :
  name_taken name db = false ->
  ~ In name (map OriginRow.name (rows (cdn_origins db))).
Proof.
  unfold name_taken. intros Hf Hin. apply in_map_iff in Hin as (r & Hr & Hin).
  assert (Ht : existsb (fun r => String.eqb (OriginRow.name r) name)
                 (rows (cdn_origins db)) = true).
  { apply existsb_exists. exists r. split; [assumption|]. now apply String.eqb_eq. }
  congruence.
Qed.

(** Every call keeps the invariant, whether it returns or raises. *)
Lemma step_ok (w : World) (c : Call) (db : Database) :
  store_ok db -> store_ok (snd (step w c db)).
Proof.
  intros Hok. pose proof Hok as (Ho & Hr & Hp & Hn).
  destruct c as [name ou cu prov ttl notes | oid pp ttl ch rt | oid pt tg tb];
    cbn [step].
  - assert (E : snd (match add_origin w name ou cu prov ttl notes db with
                     | (Ok o, db') => (NewOrigin o, db')
                     | (Raise e, db') => (Raised e, db')
                     end) = snd (add_origin w name ou cu prov ttl notes db))
      by (now destruct (add_origin w name ou cu prov ttl notes db) as [[o|e] d]).
    rewrite E. clear E.
    destruct (add_origin_cases w name ou cu prov ttl notes db)
      as [(e & ->) | (Hfree & _ & _ & -> & _)]; [exact Hok|].
    split; [|split; [|split]];
      cbn [cdn_origins cache_rules purge_events]; try assumption.
    + now apply insert_row_ok.
    + cbn [insert_row fst rows]. rewrite map_app. cbn [map origin_row OriginRow.name].
      apply (Permutation_NoDup (Permutation_cons_append _ _)).
      constructor; [now apply name_taken_false | assumption].
  - destruct (add_cache_rule_cases w oid pp ttl ch rt db) as [(e & ->) | (_ & _ & _ & ->)];
      cbn [snd]; [exact Hok|].
    split; [|split; [|split]]; cbn [cdn_origins cache_rules purge_events];
      try assumption. now apply insert_row_ok.
  - destruct (purge_cache_cases w oid pt tg tb db) as [(e & ->) | (_ & _ & ->)];
      cbn [snd]; [exact Hok|].
    split; [|split; [|split]]; cbn [cdn_origins cache_rules purge_events];
      try assumption.
    + now apply update_rows_ok.
    + now apply insert_row_ok.
    + cbn [update_rows rows]. rewrite map_map.
      replace (map _ (rows (cdn_origins db)))
        with (map OriginRow.name (rows (cdn_origins db))); [assumption|].
      apply map_ext. intros r. now destruct (OriginRow.id r =? oid).
Qed.

(** The invariant holds in every state the calls can reach. *)
Lemma run_ok (script : list (World * Call)) (db : Database) :
  store_ok db -> store_ok (snd (run script db)).
Proof.
  revert db. induction script as [|[w c] rest IH]; intros db Hok; cbn [run].
  - exact Hok.
  - pose proof (step_ok w c db Hok) as H1. destruct (step w c db) as [o db1].
    specialize (IH db1 H1). now destruct (run rest db1).
Qed.

(** In such a state the listing is strictly ascending: no two names tie. *)
Lemma list_origins_strict (provider : option string) (db : Database) :
  store_ok db ->
  List.NoDup (map CDNOrigin.name (list_origins provider db)).
Proof.
  intros (_ & _ & _ & Hn). unfold list_origins. rewrite map_map.
  change (fun x => CDNOrigin.name (origin_of_row x)) with OriginRow.name.
  assert (Hsub : forall l : list OriginRow.t,
             List.NoDup (map OriginRow.name l) ->
             List.NoDup (map OriginRow.name (order_by by_name l))).
  { intros l Hl. eapply Permutation_NoDup; [|exact Hl].
    apply Permutation_map. symmetry. apply order_by_perm. }
  destruct (truthy provider); apply Hsub; [|assumption].
  clear Hsub. induction (rows (cdn_origins db)) as [|r rs IH]; [constructor|].
  cbn [map] in Hn. apply List.NoDup_cons_iff in Hn as [Hr Hn]. cbn [List.filter].
  destruct (match provider with Some p => _ | None => true end); [|auto].
  cbn [map]. constructor; [|auto]. intros Hin. apply Hr.
  apply in_map_iff in Hin as (x & Hx & Hin). apply filter_In in Hin as [Hin _].
  apply in_map_iff. eauto.
Qed.

(** The events [purge_cache] stores carry the instants of their calls. *)
Lemma purge_cache_stamps (w : World) (oid : Z) (pt tg tb : string) (db : Database)
    (stamps : list Z) :
  map PurgeRow.created_at (rows (purge_events db)) = map sqlite_datetime stamps ->
  match purge_cache w oid pt tg tb db with
  | (Ok _, db') =>
      map PurgeRow.created_at (rows (purge_events db'))
      = map sqlite_datetime (stamps ++ [unix_seconds (clock w)])
  | (Raise _, db') =>
      map PurgeRow.created_at (rows (purge_events db')) = map sqlite_datetime stamps
  end.
Proof.
  intros Hst.
  destruct (purge_cache_cases w oid pt tg tb db) as [(e & ->) | (_ & _ & ->)];
    [exact Hst|].
  cbn [purge_events insert_row fst rows]. rewrite !map_app, Hst. reflexivity.
Qed.

(** So every state that calls reach from a stamped one is stamped, with the
    instants of those calls. *)
Lemma run_stamps (script : list (World * Call)) (db : Database) (stamps : list Z) :
  map PurgeRow.created_at (rows (purge_events db)) = map sqlite_datetime stamps ->
  exists later,
    map PurgeRow.created_at (rows (purge_events (snd (run script db))))
    = map sqlite_datetime (stamps ++ later)
    /\ Forall (fun t => exists w c, In (w, c) script /\ t = unix_seconds (clock w)) later.
Proof.
  revert db stamps. induction script as [|[w c] rest IH]; intros db stamps Hst; cbn [run].
  - exists []. rewrite app_nil_r. split; [exact Hst | constructor].
  - assert (Hstep : exists one,
              map PurgeRow.created_at (rows (purge_events (snd (step w c db))))
              = map sqlite_datetime (stamps ++ one)
              /\ Forall (fun t => t = unix_seconds (clock w)) one).
    { destruct c as [name ou cu prov ttl notes | oid pp ttl ch rt | oid pt tg tb];
        cbn [step].
      - exists []. rewrite app_nil_r. split; [|constructor].
        assert (E : purge_events
                      (snd (match add_origin w name ou cu prov ttl notes db with
                            | (Ok o, db') => (NewOrigin o, db')
                            | (Raise e, db') => (Raised e, db')
                            end)) = purge_events db).
        { destruct (add_origin_cases w name ou cu prov ttl notes db)
            as [(e & ->) | (_ & _ & _ & E & _)]; [reflexivity|].
          destruct (add_origin w name ou cu prov ttl notes db) as [[o|e] d].
          - cbn [snd] in *. now subst d.
          - cbn [snd] in *. now subst d. }
        now rewrite E.
      - exists []. rewrite app_nil_r. split; [|constructor].
        destruct (add_cache_rule_cases w oid pp ttl ch rt db)
          as [(e & ->) | (_ & _ & _ & ->)]; exact Hst.
      - pose proof (purge_cache_stamps w oid pt tg tb db stamps Hst) as H.
        destruct (purge_cache w oid pt tg tb db) as [[p|e] db1]; cbn [snd].
        + exists [unix_seconds (clock w)]. split; [exact H | now repeat constructor].
        + exists []. rewrite app_nil_r. split; [exact H | constructor]. }
    destruct Hstep as (one & H1 & Hone). destruct (step w c db) as [o db1].
    cbn [snd] in H1. destruct (IH db1 _ H1) as (later & H2 & Hlater).
    destruct (run rest db1) as [os db2]. cbn [snd] in *.
    exists (one ++ later)%list. split; [now rewrite app_assoc|].
    apply Forall_app. split.
    + eapply List.Forall_impl; [|exact Hone]. cbn. intros t ->.
      exists w, c. split; [now left | reflexivity].
    + eapply List.Forall_impl; [|exact Hlater]. cbn. intros t (w' & c' & Hin & ->).
      exists w', c'. split; [now right | reflexivity].
Qed.

(** * The claims *)

(** C1, as the code has it. [purge_cache] on an existing origin X (storage
    healthy) stores a new PurgeEvent with origin_id X and status 'queued' and
    stamps origin X's last_purge; but the stored event's created_at is the
    column default CURRENT_TIMESTAMP, the stamp is Python's
    [datetime.now().isoformat()], and the two texts are never equal. Only the
    PurgeEvent object that is returned carries the stamp as its created_at.
    (The id of a stored origin is a rowid, a 64-bit integer; for an id that
    is none the call raises OverflowError and stores nothing.) *)
Theorem purge_cache_stamp_is_not_created_at
    (c : Clock) (X : Z) (purge_type target triggered_by : string) (db : Database) :
  (exists o, In o (rows (cdn_origins db)) /\ OriginRow.id o = X) ->
  if fits_int64 X
  then
    exists (p : PurgeEvent.t) (db' : Database) (ev : PurgeRow.t),
      purge_cache (healthy c) X purge_type target triggered_by db = (Ok p, db')
      /\ rows (purge_events db') = (rows (purge_events db) ++ [ev])%list
      /\ PurgeEvent.id p = Some (PurgeRow.id ev)
      /\ PurgeRow.origin_id ev = X
      /\ PurgeRow.status ev = "queued"
      /\ PurgeRow.created_at ev = CURRENT_TIMESTAMP c
      /\ PurgeEvent.created_at p = Some (datetime_now_isoformat c)
      /\ (exists o, In o (rows (cdn_origins db')) /\ OriginRow.id o = X)
      /\ (forall o, In o (rows (cdn_origins db')) -> OriginRow.id o = X ->
            OriginRow.last_purge o = Some (datetime_now_isoformat c)
            /\ OriginRow.last_purge o <> Some (PurgeRow.created_at ev))
  else
    purge_cache (healthy c) X purge_type target triggered_by db = (Raise OverflowError, db).
Proof.
  intros (o & Ho & Hid). rewrite purge_cache_eq.
  cbn [fault_within healthy storage_faults firstn existsb clock hd].
  destruct (fits_int64 X); cbn [negb]; [|reflexivity].
  do 3 eexists. split; [reflexivity|]. cbn [purge_events cdn_origins insert_row fst rows].
  do 6 (split; [reflexivity|]). split.
  - exists (set_last_purge (datetime_now_isoformat c) o). split; [|exact Hid].
    apply in_update_rows. exists o. split.
    + assumption.
    + now rewrite (proj2 (Z.eqb_eq _ _) Hid).
  - intros o' Ho' Hid'. apply in_update_rows in Ho' as (r0 & Hr0 & ->).
    destruct (Z.eqb_spec (OriginRow.id r0) X) as [_|Hne]; [|contradiction].
    split; [reflexivity|].
    cbn [OriginRow.last_purge set_last_purge PurgeRow.created_at purge_row].
    intros Heq. apply (formats_differ c c). congruence.
Qed.

Lemma purge_cache_stamp_is_not_created_at_witness :
  let c := {| unix_us := 1793700000123456; utc_offset := 3600 |} in
  let db := snd (add_origin (healthy c) "shop" "https://origin.example.com"
                   "https://cdn.example.com" "cloudflare" 7200 "" _init_db) in
  exists p db' ev,
    purge_cache (healthy c) 1 "path" "/images/*" "cli" db = (Ok p, db')
    /\ rows (purge_events db') = (rows (purge_events db) ++ [ev])%list
    /\ PurgeRow.created_at ev = "2026-11-03 10:00:00"
    /\ forall o, In o (rows (cdn_origins db')) -> OriginRow.id o = 1 ->
         OriginRow.last_purge o = Some "2026-11-03T11:00:00.123456".
Proof.
  intros c db.
  assert (Hex : exists o, In o (rows (cdn_origins db)) /\ OriginRow.id o = 1)
    by (eexists; split; [left; reflexivity | reflexivity]).
  pose proof (purge_cache_stamp_is_not_created_at c 1 "path" "/images/*" "cli" db Hex) as H.
  change (fits_int64 1) with true in H. cbv iota in H.
  destruct H as (p & db' & ev & E & Hrows & _ & _ & _ & Hts & _ & _ & Hall).
  exists p, db', ev. repeat split; try assumption.
  intros o Ho Hid. now destruct (Hall o Ho Hid).
Defined.

(** C2. [purge_cache] is all or nothing: it raises exactly when one of its
    three storage operations (the INSERT, the UPDATE, the commit) fails or
    the INSERT cannot bind origin_id (an int outside 64 bits), and then what
    is on disk is what was there before; when it returns, the PurgeEvent row
    is inserted and last_purge is stamped on the origins with that id, and
    nothing else has changed. *)
Theorem purge_cache_all_or_nothing
    (w : World) (origin_id : Z) (purge_type target triggered_by : string)
    (db : Database) :
  let result := fst (purge_cache w origin_id purge_type target triggered_by db) in
  let db' := snd (purge_cache w origin_id purge_type target triggered_by db) in
  let ts := datetime_now_isoformat (clock w) in
  raised result = fault_within 3 w || negb (fits_int64 origin_id)
  /\ if raised result
     then db' = db
     else rows (purge_events db') =
            (rows (purge_events db)
             ++ [purge_row (clock w) origin_id purge_type target "queued" triggered_by
                   (next_rowid (purge_events db))])%list
          /\ rows (cdn_origins db') =
             map (fun o => if OriginRow.id o =? origin_id then set_last_purge ts o else o)
               (rows (cdn_origins db))
          /\ cache_rules db' = cache_rules db.
Proof.
  cbv zeta. rewrite purge_cache_eq.
  destruct (hd false (storage_faults w)) eqn:Eh.
  - rewrite (fault_within_head 2 w Eh). cbn. auto.
  - destruct (fits_int64 origin_id); cbn [negb].
    + rewrite orb_false_r. destruct (fault_within 3 w); cbn; auto.
    + rewrite orb_true_r. cbn. auto.
Qed.




(** *** Listing *)

Lemma by_name_total (a b : OriginRow.t) : by_name a b = true \/ by_name b a = true.
Proof. apply String.leb_total. Qed.

Lemma by_name_trans (a b c : OriginRow.t) :
  by_name a b = true -> by_name b c = true -> by_name a c = true.
Proof. apply leb_trans. Qed.

Lemma list_origins_sorted (provider : option string) (db : Database) :
  StronglySorted
    (fun a b => String.leb (CDNOrigin.name a) (CDNOrigin.name b) = true)
    (list_origins provider db).
Proof.
  unfold list_origins.
  apply (StronglySorted_map (fun a b => by_name a b = true)); [auto|].
  apply order_by_sorted; [apply by_name_total | apply by_name_trans].
Qed.

Lemma list_origins_unfiltered (provider : option string) (db : Database) :
  truthy provider = false ->
  Permutation (list_origins provider db) (map origin_of_row (rows (cdn_origins db))).
Proof.
  intros Hf. unfold list_origins. rewrite Hf.
  apply Permutation_map, order_by_perm.
Qed.

Lemma filter_none {A} (f : A -> bool) (l : list A) :
  (forall x, In x l -> f x = false) -> List.filter f l = [].
Proof.
  induction l as [|x l IH]; intros Hf; [reflexivity|]. cbn [List.filter].
  rewrite (Hf x (or_introl eq_refl)). apply IH. intros y Hy. apply Hf. now right.
Qed.




(** *** References to origins that do not exist *)




(** *** Status *)

Lemma sum_values_empty : sum_values ∅ = 0%nat.
Proof. unfold sum_values. apply map_fold_empty. Qed.

Lemma sum_values_count_into (k : string) (d : gmap string nat) :
  sum_values (count_into k d) = S (sum_values d).
Proof.
  unfold sum_values, count_into.
  destruct (d !! k) as [v|] eqn:E; cbn [default from_option]; unfold id.
  - rewrite <- (insert_delete_eq d).
    rewrite map_fold_insert_L; [|intros; lia|apply lookup_delete_eq].
    rewrite (map_fold_delete_L _ _ k v d); [lia|intros; lia|exact E].
  - rewrite map_fold_insert_L; [lia|intros; lia|exact E].
Qed.

Lemma tally_from_sums (origins : list CDNOrigin.t) (acc : gmap string nat * gmap string nat) :
  let r := fold_left
             (fun acc o =>
                (count_into (CDNOrigin.provider o) (fst acc),
                 count_into (CDNOrigin.status o) (snd acc)))
             origins acc in
  sum_values (fst r) = (sum_values (fst acc) + length origins)%nat
  /\ sum_values (snd r) = (sum_values (snd acc) + length origins)%nat.
Proof.
  revert acc. induction origins as [|o origins IH]; intros acc; cbn [fold_left length].
  - cbv zeta. lia.
  - specialize (IH (count_into (CDNOrigin.provider o) (fst acc),
                    count_into (CDNOrigin.status o) (snd acc))).
    cbv zeta in *. cbn [fst snd] in IH. rewrite !sum_values_count_into in IH. lia.
Qed.

(** C6. In every store state, [total_origins] of [cdn_status] is the length
    of [list_origins()], and the counts of [by_provider] and those of
    [by_status] each add up to it. *)
Theorem cdn_status_totals (now : Clock) (db : Database) :
  Status.total_origins (cdn_status now db) = length (list_origins None db)
  /\ sum_values (Status.by_provider (cdn_status now db))
     = Status.total_origins (cdn_status now db)
  /\ sum_values (Status.by_status (cdn_status now db))
     = Status.total_origins (cdn_status now db).
Proof.
  unfold cdn_status.
  pose proof (tally_from_sums (list_origins None db) (∅, ∅)) as H.
  cbv zeta in H. fold (tally (list_origins None db)) in H.
  destruct (tally (list_origins None db)) as [bp bs].
  cbn [fst snd Status.total_origins Status.by_provider Status.by_status] in *.
  rewrite sum_values_empty in H. lia.
Qed.

Lemma purges_24h_eq (now : Clock) (db : Database) :
  Status.purges_24h (cdn_status now db)
  = length (List.filter (in_last_day now) (rows (purge_events db))).
Proof.
  unfold cdn_status. now destruct (tally (list_origins None db)).
Qed.

(** The text comparison of [cdn_status] is the comparison of the instants. *)
Lemma in_last_day_spec (now : Clock) (e : PurgeRow.t) (t : Z) :
  valid_ts (unix_seconds now - 86400) -> valid_ts t ->
  PurgeRow.created_at e = sqlite_datetime t ->
  in_last_day now e = (unix_seconds now - 86400 <? t).
Proof.
  intros Vn Vt E. unfold in_last_day, datetime_now_minus_1_day, String.ltb.
  rewrite E. unfold sqlite_datetime. rewrite date_time_compare by assumption.
  reflexivity.
Qed.



(** *** Identifiers *)

Lemma next_rowid_update_rows {R} `{Row R} (cond : R -> bool) (upd : R -> R) (t : Table R) :
  (forall r, rowid (upd r) = rowid r) ->
  next_rowid (update_rows cond upd t) = next_rowid t.
Proof.
  intros Hupd. unfold next_rowid, update_rows. cbn [rows seq]. f_equal. f_equal.
  induction (rows t) as [|r rs IH]; [reflexivity|]. cbn [map].
  rewrite !max_rowid_cons, IH. now destruct (cond r); rewrite ?Hupd.
Qed.

(** What one call does to the three id counters. *)
Lemma step_spec (w : World) (c : Call) (db : Database) :
  match step w c db with
  | (Raised _, db') =>
      next_rowid (cdn_origins db) <= next_rowid (cdn_origins db')
      /\ cache_rules db' = cache_rules db /\ purge_events db' = purge_events db
  | (NewOrigin x, db') =>
      (exists o, x = Some o /\ CDNOrigin.id o = Some (next_rowid (cdn_origins db)))
      /\ next_rowid (cdn_origins db') = next_rowid (cdn_origins db) + 1
      /\ cache_rules db' = cache_rules db /\ purge_events db' = purge_events db
  | (NewRule r, db') =>
      CacheRule.id r = Some (next_rowid (cache_rules db))
      /\ next_rowid (cache_rules db') = next_rowid (cache_rules db) + 1
      /\ cdn_origins db' = cdn_origins db /\ purge_events db' = purge_events db
  | (NewPurge p, db') =>
      PurgeEvent.id p = Some (next_rowid (purge_events db))
      /\ next_rowid (purge_events db') = next_rowid (purge_events db) + 1
      /\ next_rowid (cdn_origins db') = next_rowid (cdn_origins db)
      /\ cache_rules db' = cache_rules db
  end.
Proof.
  destruct c as [name ou cu prov ttl notes | oid pp ttl ch rt | oid pt tg tb];
    cbn [step].
  - destruct (add_origin_cases w name ou cu prov ttl notes db)
      as [(e & ->) | (_ & _ & _ & Hdb & Hres)].
    + split; [apply Z.le_refl | split; reflexivity].
    + assert (Hn : next_rowid
                     (fst (insert_row (origin_row (clock w) name ou cu prov ttl notes)
                             (cdn_origins db)))
                   = next_rowid (cdn_origins db) + 1)
        by (apply insert_row_next; reflexivity).
      destruct (add_origin w name ou cu prov ttl notes db) as [r d].
      cbn [fst snd] in *. subst d. cbn [cdn_origins cache_rules purge_events].
      destruct Hres as [-> | (e & ->)].
      * split; [eexists; split; reflexivity|]. split; [exact Hn | split; reflexivity].
      * cbn [cdn_origins] in Hn |- *. split; [lia | split; reflexivity].
  - destruct (add_cache_rule_cases w oid pp ttl ch rt db) as [(e & ->) | (_ & _ & _ & ->)].
    + split; [apply Z.le_refl | split; reflexivity].
    + split; [reflexivity|]. split; [|split; reflexivity].
      apply insert_row_next. reflexivity.
  - destruct (purge_cache_cases w oid pt tg tb db) as [(e & ->) | (_ & _ & ->)].
    + split; [apply Z.le_refl | split; reflexivity].
    + split; [reflexivity|]. split; [|split; [|reflexivity]].
      * apply insert_row_next. reflexivity.
      * apply next_rowid_update_rows. reflexivity.
Qed.

(** What one call does to the store. *)
Lemma step_cases (w : World) (c : Call) (db : Database) :
  (exists e, step w c db = (Raised e, db))
  \/ (exists name ou cu prov ttl notes,
        c = AddOrigin name ou cu prov ttl notes
        /\ name_taken name db = false
        /\ snd (step w c db)
           = {| cdn_origins :=
                  fst (insert_row (origin_row (clock w) name ou cu prov ttl notes)
                         (cdn_origins db));
                cache_rules := cache_rules db; purge_events := purge_events db |}
        /\ (fst (step w c db)
            = NewOrigin (Some (origin_of_row (origin_row (clock w) name ou cu prov ttl
                                                notes (next_rowid (cdn_origins db)))))
            \/ exists e, fst (step w c db) = Raised e))
  \/ (exists oid pp ttl ch rt,
        c = AddCacheRule oid pp ttl ch rt
        /\ step w c db
           = (NewRule {| CacheRule.id := Some (next_rowid (cache_rules db));
                         CacheRule.origin_id := oid; CacheRule.path_pattern := pp;
                         CacheRule.ttl := ttl; CacheRule.cache_headers := ch;
                         CacheRule.rule_type := rt; CacheRule.created_at := None |},
              {| cdn_origins := cdn_origins db;
                 cache_rules :=
                   fst (insert_row (rule_row (clock w) oid pp ttl (Z.b2z ch) rt)
                          (cache_rules db));
                 purge_events := purge_events db |}))
  \/ (exists oid pt tg tb,
        c = PurgeCache oid pt tg tb
        /\ step w c db
           = (NewPurge {| PurgeEvent.id := Some (next_rowid (purge_events db));
                          PurgeEvent.origin_id := oid; PurgeEvent.purge_type := pt;
                          PurgeEvent.target := tg; PurgeEvent.status := "queued";
                          PurgeEvent.triggered_by := tb;
                          PurgeEvent.created_at :=
                            Some (datetime_now_isoformat (clock w)) |},
              {| cdn_origins :=
                   update_rows (fun r => OriginRow.id r =? oid)
                     (set_last_purge (datetime_now_isoformat (clock w))) (cdn_origins db);
                 cache_rules := cache_rules db;
                 purge_events :=
                   fst (insert_row (purge_row (clock w) oid pt tg "queued" tb)
                          (purge_events db)) |})).
Proof.
  destruct c as [name ou cu prov ttl notes | oid pp ttl ch rt | oid pt tg tb];
    cbn [step].
  - destruct (add_origin_cases w name ou cu prov ttl notes db)
      as [(e & ->) | (Hfree & _ & _ & Hdb & Hres)]; [left; eauto|].
    right; left. do 6 eexists. split; [reflexivity|]. split; [exact Hfree|].
    destruct (add_origin w name ou cu prov ttl notes db) as [r d].
    cbn [fst snd] in *. subst d.
    destruct Hres as [-> | (e & ->)]; cbn [fst snd]; split; eauto.
  - destruct (add_cache_rule_cases w oid pp ttl ch rt db) as [(e & ->) | (_ & _ & _ & ->)];
      [left; eauto|].
    right; right; left. do 5 eexists. split; reflexivity.
  - destruct (purge_cache_cases w oid pt tg tb db) as [(e & ->) | (_ & _ & ->)];
      [left; eauto|].
    right; right; right. do 4 eexists. split; reflexivity.
Qed.

Lemma origin_ids_cons (o : Outcome) (os : list Outcome) :
  origin_ids (o :: os) = (origin_ids [o] ++ origin_ids os)%list.
Proof. unfold origin_ids. cbn [flat_map]. now rewrite app_nil_r. Qed.

Lemma rule_ids_cons (o : Outcome) (os : list Outcome) :
  rule_ids (o :: os) = (rule_ids [o] ++ rule_ids os)%list.
Proof. unfold rule_ids. cbn [flat_map]. now rewrite app_nil_r. Qed.

Lemma purge_ids_cons (o : Outcome) (os : list Outcome) :
  purge_ids (o :: os) = (purge_ids [o] ++ purge_ids os)%list.
Proof. unfold purge_ids. cbn [flat_map]. now rewrite app_nil_r. Qed.

Lemma ids_cons_sorted (ids1 ids : list Z) (n n1 n2 : Z) :
  (ids1 = [] /\ n1 = n) \/ (ids1 = [n] /\ n1 = n + 1) ->
  StronglySorted Z.lt ids /\ Forall (fun i => n1 <= i < n2) ids /\ n1 <= n2 ->
  StronglySorted Z.lt (ids1 ++ ids) /\ Forall (fun i => n <= i < n2) (ids1 ++ ids)
  /\ n <= n2.
Proof.
  intros [[-> ->]|[-> ->]] (Hs & Hall & Hle); cbn [app].
  - auto.
  - split; [|split; [|lia]].
    + constructor; [assumption|]. eapply List.Forall_impl; [|exact Hall].
      cbn. intros i Hi. lia.
    + constructor; [lia|]. eapply List.Forall_impl; [|exact Hall]. cbn. intros i Hi. lia.
Qed.

Lemma run_ids (script : list (World * Call)) (db : Database) :
  let os := fst (run script db) in
  let db' := snd (run script db) in
  (StronglySorted Z.lt (origin_ids os)
   /\ Forall (fun i => next_rowid (cdn_origins db) <= i < next_rowid (cdn_origins db'))
        (origin_ids os)
   /\ next_rowid (cdn_origins db) <= next_rowid (cdn_origins db'))
  /\ (StronglySorted Z.lt (rule_ids os)
      /\ Forall (fun i => next_rowid (cache_rules db) <= i < next_rowid (cache_rules db'))
           (rule_ids os)
      /\ next_rowid (cache_rules db) <= next_rowid (cache_rules db'))
  /\ (StronglySorted Z.lt (purge_ids os)
      /\ Forall (fun i => next_rowid (purge_events db) <= i < next_rowid (purge_events db'))
           (purge_ids os)
      /\ next_rowid (purge_events db) <= next_rowid (purge_events db')).
Proof.
  revert db. induction script as [|[w c] rest IH]; intros db; cbn [run].
  - cbn. repeat split; try constructor; lia.
  - pose proof (step_spec w c db) as Hstep.
    destruct (step w c db) as [o db1]. specialize (IH db1).
    destruct (run rest db1) as [os db2]. cbn [fst snd] in *.
    destruct IH as (IHo & IHr & IHp).
    rewrite (origin_ids_cons o os), (rule_ids_cons o os), (purge_ids_cons o os).
    destruct o as [e | x | r | p].
    + destruct Hstep as (Hle & Hr & Hp). rewrite Hr, Hp in *.
      split; [|split; assumption]. cbn [origin_ids flat_map app].
      destruct IHo as (Hs & Hall & Hle2). split; [exact Hs|]. split; [|lia].
      eapply List.Forall_impl; [|exact Hall]. cbn. intros i Hi. lia.
    + destruct Hstep as ((x' & -> & Hid) & Hn & Hr & Hp). rewrite Hr, Hp in *.
      assert (E : origin_ids [NewOrigin (Some x')] = [next_rowid (cdn_origins db)])
        by (cbn; now rewrite Hid).
      split; [|split; assumption].
      exact (ids_cons_sorted _ _ _ _ _ (or_intror (conj E Hn)) IHo).
    + destruct Hstep as (Hid & Hn & Ho & Hp). rewrite Ho, Hp in *.
      assert (E : rule_ids [NewRule r] = [next_rowid (cache_rules db)])
        by (cbn; now rewrite Hid).
      split; [assumption|]. split; [|assumption].
      exact (ids_cons_sorted _ _ _ _ _ (or_intror (conj E Hn)) IHr).
    + destruct Hstep as (Hid & Hn & Ho & Hr). rewrite Ho, Hr in *.
      assert (E : purge_ids [NewPurge p] = [next_rowid (purge_events db)])
        by (cbn; now rewrite Hid).
      split; [assumption|]. split; [assumption|].
      exact (ids_cons_sorted _ _ _ _ _ (or_intror (conj E Hn)) IHp).
Qed.

(** The ids that one call adds to each table: none, or the next one. *)
Lemma step_added (w : World) (c : Call) (db : Database) :
  exists ao ar ap,
    (map OriginRow.id (rows (cdn_origins (snd (step w c db))))
     = (map OriginRow.id (rows (cdn_origins db)) ++ ao)%list
     /\ ((ao = [] /\ next_rowid (cdn_origins (snd (step w c db)))
                      = next_rowid (cdn_origins db))
         \/ (ao = [next_rowid (cdn_origins db)]
             /\ next_rowid (cdn_origins (snd (step w c db)))
                = next_rowid (cdn_origins db) + 1))
     /\ incl (origin_ids [fst (step w c db)]) ao)
    /\ (map RuleRow.id (rows (cache_rules (snd (step w c db))))
        = (map RuleRow.id (rows (cache_rules db)) ++ ar)%list
        /\ ((ar = [] /\ next_rowid (cache_rules (snd (step w c db)))
                         = next_rowid (cache_rules db))
            \/ (ar = [next_rowid (cache_rules db)]
                /\ next_rowid (cache_rules (snd (step w c db)))
                   = next_rowid (cache_rules db) + 1))
        /\ rule_ids [fst (step w c db)] = ar)
    /\ (map PurgeRow.id (rows (purge_events (snd (step w c db))))
        = (map PurgeRow.id (rows (purge_events db)) ++ ap)%list
        /\ ((ap = [] /\ next_rowid (purge_events (snd (step w c db)))
                         = next_rowid (purge_events db))
            \/ (ap = [next_rowid (purge_events db)]
                /\ next_rowid (purge_events (snd (step w c db)))
                   = next_rowid (purge_events db) + 1))
        /\ purge_ids [fst (step w c db)] = ap).
Proof.
  destruct (step_cases w c db)
    as [(e & ->) | [(name & ou & cu & prov & ttl & notes & _ & _ & Hdb & Hres)
       | [(oid & pp & ttl & ch & rt & _ & ->) | (oid & pt & tg & tb & _ & ->)]]];
    cbn [fst snd].
  - exists [], [], []. rewrite !app_nil_r.
    repeat split; try (left; split; reflexivity). apply incl_refl.
  - rewrite Hdb. cbn [cdn_origins cache_rules purge_events].
    exists [next_rowid (cdn_origins db)], [], []. rewrite !app_nil_r.
    split; [|split].
    + split; [cbn [insert_row fst rows]; now rewrite map_app|].
      split; [right; split; [reflexivity | apply insert_row_next; reflexivity]|].
      destruct Hres as [-> | (e & ->)]; cbn; [apply incl_refl | intros i []].
    + split; [reflexivity|]. split; [left; split; reflexivity|].
      now destruct Hres as [-> | (e & ->)].
    + split; [reflexivity|]. split; [left; split; reflexivity|].
      now destruct Hres as [-> | (e & ->)].
  - cbn [cdn_origins cache_rules purge_events].
    exists [], [next_rowid (cache_rules db)], []. rewrite !app_nil_r.
    split; [|split].
    + split; [reflexivity|]. split; [left; split; reflexivity | apply incl_refl].
    + split; [cbn [insert_row fst rows]; now rewrite map_app|].
      split; [right; split; [reflexivity | apply insert_row_next; reflexivity]|].
      reflexivity.
    + split; [reflexivity|]. split; [left; split; reflexivity | reflexivity].
  - cbn [cdn_origins cache_rules purge_events].
    exists [], [], [next_rowid (purge_events db)]. rewrite !app_nil_r.
    split; [|split].
    + split.
      * cbn [update_rows rows]. rewrite map_map. apply map_ext.
        intros r. now destruct (OriginRow.id r =? oid).
      * split; [left; split; [reflexivity|] | apply incl_refl].
        apply next_rowid_update_rows. reflexivity.
    + split; [reflexivity|]. split; [left; split; reflexivity | reflexivity].
    + split; [cbn [insert_row fst rows]; now rewrite map_app|].
      split; [right; split; [reflexivity | apply insert_row_next; reflexivity]|].
      reflexivity.
Qed.

Lemma added_cons (ids0 ids1 ids2 a1 a2 : list Z) (n n1 n2 : Z) :
  ids1 = (ids0 ++ a1)%list ->
  (a1 = [] /\ n1 = n) \/ (a1 = [n] /\ n1 = n + 1) ->
  ids2 = (ids1 ++ a2)%list
  /\ StronglySorted Z.lt a2 /\ Forall (fun i => n1 <= i < n2) a2 /\ n1 <= n2 ->
  ids2 = (ids0 ++ (a1 ++ a2))%list
  /\ StronglySorted Z.lt (a1 ++ a2) /\ Forall (fun i => n <= i < n2) (a1 ++ a2)
  /\ n <= n2.
Proof.
  intros -> Ha (-> & Hrest). split; [now rewrite app_assoc|].
  exact (ids_cons_sorted _ _ _ _ _ Ha Hrest).
Qed.

(** The ids that a sequence of calls adds to each table, returned or not. *)
Lemma run_added (script : list (World * Call)) (db : Database) :
  let os := fst (run script db) in
  let db' := snd (run script db) in
  exists ao ar ap,
    ((map OriginRow.id (rows (cdn_origins db'))
      = (map OriginRow.id (rows (cdn_origins db)) ++ ao)%list
      /\ StronglySorted Z.lt ao
      /\ Forall (fun i => next_rowid (cdn_origins db) <= i < next_rowid (cdn_origins db')) ao
      /\ next_rowid (cdn_origins db) <= next_rowid (cdn_origins db'))
     /\ incl (origin_ids os) ao)
    /\ ((map RuleRow.id (rows (cache_rules db'))
         = (map RuleRow.id (rows (cache_rules db)) ++ ar)%list
         /\ StronglySorted Z.lt ar
         /\ Forall (fun i => next_rowid (cache_rules db) <= i < next_rowid (cache_rules db')) ar
         /\ next_rowid (cache_rules db) <= next_rowid (cache_rules db'))
        /\ rule_ids os = ar)
    /\ ((map PurgeRow.id (rows (purge_events db'))
         = (map PurgeRow.id (rows (purge_events db)) ++ ap)%list
         /\ StronglySorted Z.lt ap
         /\ Forall (fun i => next_rowid (purge_events db) <= i < next_rowid (purge_events db'))
              ap
         /\ next_rowid (purge_events db) <= next_rowid (purge_events db'))
        /\ purge_ids os = ap).
Proof.
  revert db. induction script as [|[w c] rest IH]; intros db; cbn [run].
  - exists [], [], []. cbn [fst snd]. rewrite !app_nil_r.
    repeat split; try constructor; try apply Z.le_refl. apply incl_refl.
  - destruct (step_added w c db)
      as (ao1 & ar1 & ap1 & (Eo & Ho & Io) & (Er & Hr & Ir) & (Ep & Hp & Ip)).
    destruct (step w c db) as [o db1]. cbn [fst snd] in *.
    destruct (IH db1) as (ao2 & ar2 & ap2 & (Go & Jo) & (Gr & Jr) & (Gp & Jp)).
    destruct (run rest db1) as [os db2]. cbn [fst snd] in *.
    exists (ao1 ++ ao2)%list, (ar1 ++ ar2)%list, (ap1 ++ ap2)%list.
    rewrite (origin_ids_cons o os), (rule_ids_cons o os), (purge_ids_cons o os).
    split; [|split].
    + split; [exact (added_cons _ _ _ _ _ _ _ _ Eo Ho Go)|].
      apply incl_app; [now apply incl_appl | now apply incl_appr].
    + split; [exact (added_cons _ _ _ _ _ _ _ _ Er Hr Gr)|]. now rewrite Ir, Jr.
    + split; [exact (added_cons _ _ _ _ _ _ _ _ Ep Hp Gp)|]. now rewrite Ip, Jp.
Qed.

(** C8. Over any sequence of calls, started in any state of the store, the
    ids given to the origins that were created increase strictly in the order
    of their creation, each above every id already stored; the same for cache
    rules and for purge events. Every call that returns hands its id back.
    The same order holds of all the ids that were assigned, whether a call
    returned them or not: the rows that the sequence has added to a table
    carry strictly increasing ids, each above every id stored before. The
    rules and purge events added are those returned; the origins added
    include those returned (an [add_origin] that fails after its commit has
    stored an origin that it did not return). *)
Theorem ids_strictly_increase (script : list (World * Call)) (db : Database) :
  let os := fst (run script db) in
  let db' := snd (run script db) in
  (StronglySorted Z.lt (origin_ids os)
   /\ StronglySorted Z.lt (rule_ids os)
   /\ StronglySorted Z.lt (purge_ids os))
  /\ (forall i o, In i (origin_ids os) -> In o (rows (cdn_origins db)) ->
        OriginRow.id o < i)
  /\ (forall i r, In i (rule_ids os) -> In r (rows (cache_rules db)) ->
        RuleRow.id r < i)
  /\ (forall i e, In i (purge_ids os) -> In e (rows (purge_events db)) ->
        PurgeRow.id e < i)
  /\ (length (origin_ids os) + length (rule_ids os) + length (purge_ids os))%nat
     = length (List.filter (fun o => match o with Raised _ => false | _ => true end) os)
  /\ (exists new_origins,
        map OriginRow.id (rows (cdn_origins db'))
        = (map OriginRow.id (rows (cdn_origins db)) ++ new_origins)%list
        /\ StronglySorted Z.lt new_origins
        /\ (forall i o, In i new_origins -> In o (rows (cdn_origins db)) ->
              OriginRow.id o < i)
        /\ (forall i, In i (origin_ids os) -> In i new_origins))
  /\ (map RuleRow.id (rows (cache_rules db'))
      = (map RuleRow.id (rows (cache_rules db)) ++ rule_ids os)%list
      /\ map PurgeRow.id (rows (purge_events db'))
         = (map PurgeRow.id (rows (purge_events db)) ++ purge_ids os)%list).
Proof.
  cbv zeta. destruct (run_ids script db) as ((So & Fo & _) & (Sr & Fr & _) & (Sp & Fp & _)).
  split; [auto|]. rewrite List.Forall_forall in Fo, Fr, Fp.
  split; [|split; [|split; [|split; [|split]]]].
  - intros i o Hi Ho. specialize (Fo i Hi).
    pose proof (insert_row_fresh (fun _ => o) (cdn_origins db) o Ho) as H.
    change (OriginRow.id o < next_rowid (cdn_origins db)) in H. lia.
  - intros i r Hi Hr. specialize (Fr i Hi).
    pose proof (insert_row_fresh (fun _ => r) (cache_rules db) r Hr) as H.
    change (RuleRow.id r < next_rowid (cache_rules db)) in H. lia.
  - intros i e Hi He. specialize (Fp i Hi).
    pose proof (insert_row_fresh (fun _ => e) (purge_events db) e He) as H.
    change (PurgeRow.id e < next_rowid (purge_events db)) in H. lia.
  - clear. revert db. induction script as [|[w c] rest IH]; intros db; cbn [run].
    + reflexivity.
    + pose proof (step_spec w c db) as Hstep.
      destruct (step w c db) as [o db1]. specialize (IH db1).
      destruct (run rest db1) as [os db2]. cbn [fst snd] in *.
      rewrite (origin_ids_cons o os), (rule_ids_cons o os), (purge_ids_cons o os).
      rewrite !length_app. cbn [List.filter].
      destruct o as [e | x | r | p]; cbn [length].
      * cbn. lia.
      * destruct Hstep as ((x' & -> & Hid) & _). cbn. rewrite Hid. cbn. lia.
      * destruct Hstep as (Hid & _). cbn. rewrite Hid. cbn. lia.
      * destruct Hstep as (Hid & _). cbn. rewrite Hid. cbn. lia.
  - destruct (run_added script db)
      as (ao & ar & ap & ((Eo & Ss & Fa & _) & Io) & _).
    exists ao. split; [exact Eo|]. split; [exact Ss|]. split; [|exact Io].
    intros i o Hi Ho. rewrite List.Forall_forall in Fa. specialize (Fa i Hi).
    pose proof (insert_row_fresh (fun _ => o) (cdn_origins db) o Ho) as H.
    change (OriginRow.id o < next_rowid (cdn_origins db)) in H. lia.
  - destruct (run_added script db)
      as (ao & ar & ap & _ & ((Er & _) & Ir) & ((Ep & _) & Ip)).
    cbv zeta in Ir, Ip. rewrite Ir, Ip. split; [exact Er | exact Ep].
Qed.

(** *** Export *)

Lemma by_created_at_desc_total (a b : PurgeRow.t) :
  by_created_at_desc a b = true \/ by_created_at_desc b a = true.
Proof.
  unfold by_created_at_desc.
  destruct (String.leb_total (PurgeRow.created_at a) (PurgeRow.created_at b)); auto.
Qed.

Lemma by_created_at_desc_trans (a b c : PurgeRow.t) :
  by_created_at_desc a b = true -> by_created_at_desc b c = true ->
  by_created_at_desc a c = true.
Proof. unfold by_created_at_desc. intros H1 H2. exact (leb_trans _ _ _ H2 H1). Qed.

(** C9. The export payload holds the export timestamp; all the origins, one
    per stored row and with that row's columns (id, name, origin_url,
    cdn_url, provider, status, cache_ttl, notes, created_at, last_purge), in
    the order of [list_origins()] (ascending by name); all the cache rules in
    the order of their insertion (a rule that is added comes last); and the
    purge events sorted by created_at descending and cut after the first
    100, so that no event left out is more recent than one that is kept. *)
Theorem export_json_payload (now : Clock) (db : Database) :
  let p := export_json now db in
  let recent := Payload.recent_purge_events p in
  Payload.exported_at p = datetime_now_isoformat now
  /\ (Payload.origins p = list_origins None db
      /\ (exists sorted_rows,
            Permutation sorted_rows (rows (cdn_origins db))
            /\ StronglySorted
                 (fun a b => String.leb (OriginRow.name a) (OriginRow.name b) = true)
                 sorted_rows
            /\ Payload.origins p
               = map (fun r =>
                        {| CDNOrigin.id := Some (OriginRow.id r);
                           CDNOrigin.name := OriginRow.name r;
                           CDNOrigin.origin_url := OriginRow.origin_url r;
                           CDNOrigin.cdn_url := OriginRow.cdn_url r;
                           CDNOrigin.provider := OriginRow.provider r;
                           CDNOrigin.status := OriginRow.status r;
                           CDNOrigin.cache_ttl := OriginRow.cache_ttl r;
                           CDNOrigin.notes := OriginRow.notes r;
                           CDNOrigin.created_at := Some (OriginRow.created_at r);
                           CDNOrigin.last_purge := OriginRow.last_purge r |})
                   sorted_rows)
      /\ Permutation (Payload.origins p) (map origin_of_row (rows (cdn_origins db)))
      /\ StronglySorted
           (fun a b => String.leb (CDNOrigin.name a) (CDNOrigin.name b) = true)
           (Payload.origins p))
  /\ (Payload.cache_rules p = rows (cache_rules db)
      /\ forall w origin_id path_pattern ttl cache_headers rule_type now',
           match add_cache_rule w origin_id path_pattern ttl cache_headers rule_type db with
           | (Ok rule, db') =>
               exists row,
                 CacheRule.id rule = Some (RuleRow.id row)
                 /\ Payload.cache_rules (export_json now' db')
                    = (Payload.cache_rules p ++ [row])%list
           | (Raise _, db') =>
               Payload.cache_rules (export_json now' db') = Payload.cache_rules p
           end)
  /\ (length recent = Nat.min 100 (length (rows (purge_events db)))
      /\ StronglySorted
           (fun a b => String.leb (PurgeRow.created_at b) (PurgeRow.created_at a) = true)
           recent
      /\ exists older,
           Permutation (recent ++ older) (rows (purge_events db))
           /\ forall a b, In a recent -> In b older ->
                String.leb (PurgeRow.created_at b) (PurgeRow.created_at a) = true).
Proof.
  cbv zeta. cbn [export_json Payload.exported_at Payload.origins Payload.cache_rules
                 Payload.recent_purge_events].
  pose proof (order_by_sorted by_created_at_desc by_created_at_desc_total
                by_created_at_desc_trans (rows (purge_events db))) as Hsorted.
  pose proof (order_by_perm by_created_at_desc (rows (purge_events db))) as Hperm.
  split; [reflexivity|]. split; [|split].
  - split; [reflexivity|]. split; [|split].
    + exists (order_by by_name (rows (cdn_origins db))). split; [|split].
      * apply order_by_perm.
      * exact (order_by_sorted by_name by_name_total by_name_trans (rows (cdn_origins db))).
      * reflexivity.
    + now apply list_origins_unfiltered.
    + apply list_origins_sorted.
  - split; [reflexivity|]. intros w oid pp ttl ch rt now'.
    destruct (add_cache_rule_cases w oid pp ttl ch rt db) as [(e & ->) | (_ & _ & _ & ->)];
      [reflexivity|].
    eexists. split; [|reflexivity]. reflexivity.
  - split; [|split].
    + rewrite length_firstn. now rewrite (Permutation_length Hperm).
    + now apply StronglySorted_firstn.
    + exists (skipn 100 (order_by by_created_at_desc (rows (purge_events db)))).
      split.
      * now rewrite firstn_skipn.
      * intros a b Ha Hb. rewrite <- (firstn_skipn 100) in Hsorted.
        exact (StronglySorted_app_cross _ _ _ Hsorted a b Ha Hb).
Qed.

(** An export of two origins, one rule and one purge: what the payload
    holds, column by column. *)
Lemma export_json_payload_witness :
  let c := {| unix_us := 1793700000123456; utc_offset := 3600 |} in
  let db :=
    snd (run [(healthy c, AddOrigin "shop" "https://origin.example.com"
                            "https://cdn.example.com" "cloudflare" 7200 "");
              (healthy c, AddOrigin "api" "https://api.example.com"
                            "https://api-cdn.example.com" "fastly" 60 "edge");
              (healthy c, AddCacheRule 1 "/static/*" 86400 true "cache");
              (healthy c, PurgeCache 2 "full" "*" "cli")] _init_db) in
  let p := export_json c db in
  Payload.exported_at p = "2026-11-03T11:00:00.123456"
  /\ Payload.origins p
     = [ {| CDNOrigin.id := Some 2; CDNOrigin.name := "api";
            CDNOrigin.origin_url := "https://api.example.com";
            CDNOrigin.cdn_url := "https://api-cdn.example.com";
            CDNOrigin.provider := "fastly"; CDNOrigin.status := "active";
            CDNOrigin.cache_ttl := 60; CDNOrigin.notes := "edge";
            CDNOrigin.created_at := Some "2026-11-03 10:00:00";
            CDNOrigin.last_purge := Some "2026-11-03T11:00:00.123456" |};
         {| CDNOrigin.id := Some 1; CDNOrigin.name := "shop";
            CDNOrigin.origin_url := "https://origin.example.com";
            CDNOrigin.cdn_url := "https://cdn.example.com";
            CDNOrigin.provider := "cloudflare"; CDNOrigin.status := "active";
            CDNOrigin.cache_ttl := 7200; CDNOrigin.notes := "";
            CDNOrigin.created_at := Some "2026-11-03 10:00:00";
            CDNOrigin.last_purge := None |} ]
  /\ Payload.cache_rules p
     = [ {| RuleRow.id := 1; RuleRow.origin_id := 1; RuleRow.path_pattern := "/static/*";
            RuleRow.ttl := 86400; RuleRow.cache_headers := 1;
            RuleRow.rule_type := "cache"; RuleRow.created_at := "2026-11-03 10:00:00" |} ]
  /\ Payload.recent_purge_events p
     = [ {| PurgeRow.id := 1; PurgeRow.origin_id := 2; PurgeRow.purge_type := "full";
            PurgeRow.target := "*"; PurgeRow.status := "queued";
            PurgeRow.triggered_by := "cli";
            PurgeRow.created_at := "2026-11-03 10:00:00" |} ].
Proof.
  intros c db p.
  destruct (export_json_payload c db)
    as (Hat & (_ & (sorted_rows & _ & _ & Horigins) & _ & _) & (Hrules & _) & _).
  fold p in Hat, Horigins, Hrules.
  split; [rewrite Hat; reflexivity|]. split; [|split].
  - reflexivity.
  - rewrite Hrules. reflexivity.
  - reflexivity.
Defined.

(** *** What [add_cache_rule] returns *)

(** C10 fails on created_at: the CacheRule that is returned has none, the
    row that was stored has the timestamp of its insertion. *)
Lemma add_cache_rule_created_at_counterexample :
  let c := {| unix_us := 1793700000123456; utc_offset := 3600 |} in
  exists rule db' row,
    add_cache_rule (healthy c) 1 "/static/*" 3600 true "cache" _init_db = (Ok rule, db')
    /\ rows (cache_rules db') = [row]
    /\ CacheRule.id rule = Some (RuleRow.id row)
    /\ RuleRow.created_at row = "2026-11-03 10:00:00"
    /\ CacheRule.created_at rule = None
    /\ CacheRule.created_at rule <> Some (RuleRow.created_at row).
Proof.
  intros c. do 3 eexists. repeat split. discriminate.
Qed.

(** C10, amended. Every call to [add_cache_rule] that returns gives a
    CacheRule with the id of the row it stored and with that row's
    origin_id, path_pattern, ttl, cache_headers (stored as 0 or 1) and
    rule_type; the CacheRule's created_at is left unset, while the row has
    the CURRENT_TIMESTAMP of the insertion. A call that raises stores nothing. *)
Theorem add_cache_rule_returns_row
    (w : World) (origin_id : Z) (path_pattern : string) (ttl : Z)
    (cache_headers : bool) (rule_type : string) (db : Database) :
  match add_cache_rule w origin_id path_pattern ttl cache_headers rule_type db with
  | (Ok rule, db') =>
      exists row,
        rows (cache_rules db') = (rows (cache_rules db) ++ [row])%list
        /\ CacheRule.id rule = Some (RuleRow.id row)
        /\ (forall r, In r (rows (cache_rules db)) -> RuleRow.id r < RuleRow.id row)
        /\ CacheRule.origin_id rule = RuleRow.origin_id row
        /\ CacheRule.origin_id rule = origin_id
        /\ CacheRule.path_pattern rule = RuleRow.path_pattern row
        /\ CacheRule.path_pattern rule = path_pattern
        /\ CacheRule.ttl rule = RuleRow.ttl row
        /\ CacheRule.ttl rule = ttl
        /\ Z.b2z (CacheRule.cache_headers rule) = RuleRow.cache_headers row
        /\ CacheRule.cache_headers rule = cache_headers
        /\ CacheRule.rule_type rule = RuleRow.rule_type row
        /\ CacheRule.rule_type rule = rule_type
        /\ CacheRule.created_at rule = None
        /\ RuleRow.created_at row = CURRENT_TIMESTAMP (clock w)
  | (Raise _, db') => db' = db
  end.
Proof.
  destruct (add_cache_rule_cases w origin_id path_pattern ttl cache_headers rule_type db)
    as [(e & ->) | (_ & _ & _ & ->)]; [reflexivity|].
  eexists. split; [reflexivity|]. split; [reflexivity|]. split; [|repeat split].
  intros r Hr. exact (insert_row_fresh (fun _ => r) (cache_rules db) r Hr).
Qed.

End CDNFacts.

(** * More of the store *)

Module StoreFacts.
Import Timestamps Sqlite CDN TextOrder TimestampFacts SqliteFacts CDNFacts.
Local Open Scope Z_scope.

(** ** Lookup by id *)

Lemma find_snoc {A} (f : A -> bool) (l : list A) (x : A) :
  find f (l ++ [x]) =
  match find f l with
  | Some y => Some y
  | None => if f x then Some x else None
  end.
Proof.
  induction l as [|y l IH]; cbn [app find]; [reflexivity|].
  now destruct (f y).
Qed.

Lemma find_update {A} (key : A -> Z) (j : Z) (cond : A -> bool) (upd : A -> A)
    (l : list A) :
  (forall r, key (upd r) = key r) ->
  find (fun r => key r =? j) (map (fun r => if cond r then upd r else r) l)
  = option_map (fun r => if cond r then upd r else r) (find (fun r => key r =? j) l).
Proof.
  intros Hkey. induction l as [|y l IH]; cbn [map find]; [reflexivity|].
  assert (E : key (if cond y then upd y else y) = key y)
    by (destruct (cond y); [apply Hkey | reflexivity]).
  rewrite E. destruct (key y =? j); [reflexivity | exact IH].
Qed.

Lemma fault_within_1 (w : World) : fault_within 1 w = hd false (storage_faults w).
Proof. unfold fault_within. destruct (storage_faults w) as [|[] fs]; reflexivity. Qed.

(** X1. [add_origin] and [_get_origin] round trip: a call that returns hands
    back the origin as it was stored, built from the arguments and the
    column defaults (status 'active', created_at the insertion time,
    last_purge unset), under an id above every stored id; looking that id up
    gives the same origin whenever the lookup's own query does not fail, and
    the lookup of every other id is as before. A call that raises has stored
    nothing, or, when it is the reading back that failed, exactly the new
    row. *)
Theorem add_origin_then_get
    (w : World) (name origin_url cdn_url provider : string) (cache_ttl : Z)
    (notes : string) (db : Database) :
  let i := next_rowid (cdn_origins db) in
  match add_origin w name origin_url cdn_url provider cache_ttl notes db with
  | (Ok o, db') =>
      o = Some {| CDNOrigin.id := Some i; CDNOrigin.name := name;
                  CDNOrigin.origin_url := origin_url; CDNOrigin.cdn_url := cdn_url;
                  CDNOrigin.provider := provider; CDNOrigin.status := "active";
                  CDNOrigin.cache_ttl := cache_ttl; CDNOrigin.notes := notes;
                  CDNOrigin.created_at := Some (CURRENT_TIMESTAMP (clock w));
                  CDNOrigin.last_purge := None |}
      /\ (forall w', _get_origin w' i db'
                     = if fault_within 1 w' then Raise OperationalError else Ok o)
      /\ (forall w' j, j <> i -> _get_origin w' j db' = _get_origin w' j db)
      /\ (forall r, In r (rows (cdn_origins db)) -> OriginRow.id r < i)
  | (Raise e, db') =>
      db' = db
      \/ (e <> IntegrityError "UNIQUE constraint failed: cdn_origins.name"
          /\ name_taken name db = false
          /\ rows (cdn_origins db')
             = (rows (cdn_origins db)
                ++ [origin_row (clock w) name origin_url cdn_url provider cache_ttl notes i])%list
          /\ cache_rules db' = cache_rules db
          /\ purge_events db' = purge_events db)
  end.
Proof.
  cbv zeta. rewrite add_origin_eq.
  assert (Hfresh : forall r, In r (rows (cdn_origins db)) ->
                     OriginRow.id r < next_rowid (cdn_origins db)).
  { intros r Hr. exact (insert_row_fresh (fun _ => r) (cdn_origins db) r Hr). }
  destruct (hd false (storage_faults w)); [now left|].
  destruct (fits_int64 cache_ttl); cbn [negb]; [|now left].
  destruct (name_taken name db) eqn:Hfree; [now left|].
  destruct (fault_within 2 w); [now left|].
  destruct (fault_within 3 w).
  { right. split; [discriminate|]. repeat split. }
  destruct (fits_int64 (next_rowid (cdn_origins db))) eqn:Hfits; cbn [negb].
  2:{ right. split; [discriminate|]. repeat split. }
  split; [reflexivity|]. split; [|split; [|exact Hfresh]].
  - intros w'. rewrite _get_origin_eq, fault_within_1, Hfits.
    cbn [negb cdn_origins insert_row fst rows].
    rewrite (find_snoc_fresh _ _ (next_rowid (cdn_origins db))); auto.
  - intros w' j Hj. rewrite !_get_origin_eq.
    cbn [cdn_origins insert_row fst rows]. rewrite find_snoc.
    destruct (find _ (rows (cdn_origins db))); [reflexivity|].
    cbn [origin_row OriginRow.id].
    destruct (Z.eqb_spec (next_rowid (cdn_origins db)) j); [congruence | reflexivity].
Qed.

(** X2. [purge_cache] then [_get_origin]: after a call that returns, the
    origin with that id reads back as it was but for last_purge, which is the
    call's timestamp; every other id reads back unchanged, an id that was
    absent is still absent, and a lookup that raises still raises the same. *)
Theorem purge_cache_then_get
    (w : World) (X : Z) (purge_type target triggered_by : string) (db : Database) :
  match purge_cache w X purge_type target triggered_by db with
  | (Ok _, db') =>
      (forall w' j, j <> X -> _get_origin w' j db' = _get_origin w' j db)
      /\ forall w',
           match _get_origin w' X db with
           | Ok (Some o) =>
               _get_origin w' X db'
               = Ok (Some {| CDNOrigin.id := CDNOrigin.id o;
                             CDNOrigin.name := CDNOrigin.name o;
                             CDNOrigin.origin_url := CDNOrigin.origin_url o;
                             CDNOrigin.cdn_url := CDNOrigin.cdn_url o;
                             CDNOrigin.provider := CDNOrigin.provider o;
                             CDNOrigin.status := CDNOrigin.status o;
                             CDNOrigin.cache_ttl := CDNOrigin.cache_ttl o;
                             CDNOrigin.notes := CDNOrigin.notes o;
                             CDNOrigin.created_at := CDNOrigin.created_at o;
                             CDNOrigin.last_purge :=
                               Some (datetime_now_isoformat (clock w)) |})
           | other => _get_origin w' X db' = other
           end
  | (Raise _, db') => db' = db
  end.
Proof.
  destruct (purge_cache_cases w X purge_type target triggered_by db)
    as [(e & ->) | (_ & _ & ->)]; [reflexivity|].
  split.
  - intros w' j Hj. rewrite !_get_origin_eq. cbn [cdn_origins update_rows rows].
    destruct (hd false (storage_faults w')); [reflexivity|].
    destruct (fits_int64 j); cbn [negb]; [|reflexivity].
    rewrite (find_update OriginRow.id) by reflexivity.
    destruct (find _ (rows (cdn_origins db))) as [r|] eqn:Hf; [|reflexivity].
    apply find_some in Hf as [_ Hid]. apply Z.eqb_eq in Hid.
    cbn [option_map]. destruct (Z.eqb_spec (OriginRow.id r) X); [congruence | reflexivity].
  - intros w'. rewrite !_get_origin_eq. cbn [cdn_origins update_rows rows].
    destruct (hd false (storage_faults w')); [reflexivity|].
    destruct (fits_int64 X); cbn [negb]; [|reflexivity].
    rewrite (find_update OriginRow.id) by reflexivity.
    destruct (find _ (rows (cdn_origins db))) as [r|] eqn:Hf; [|reflexivity].
    apply find_some in Hf as [_ Hid]. cbn [option_map]. now rewrite Hid.
Qed.

(** ** What every call does, and what no sequence of calls undoes *)

Lemma run_invariant (P : Database -> Prop) :
  (forall w c db, P db -> P (snd (step w c db))) ->
  forall script db, P db -> P (snd (run script db)).
Proof.
  intros Hstep script. induction script as [|[w c] rest IH]; intros db HP; cbn [run].
  - exact HP.
  - pose proof (Hstep w c db HP) as H1. destruct (step w c db) as [o db1].
    specialize (IH db1 H1). now destruct (run rest db1).
Qed.

Lemma run_relation (R : Database -> Database -> Prop) :
  (forall db, R db db) ->
  (forall a b c, R a b -> R b c -> R a c) ->
  (forall w c db, R db (snd (step w c db))) ->
  forall script db, R db (snd (run script db)).
Proof.
  intros Hrefl Htrans Hstep script.
  induction script as [|[w c] rest IH]; intros db; cbn [run].
  - apply Hrefl.
  - pose proof (Hstep w c db) as H1. destruct (step w c db) as [o db1].
    specialize (IH db1). destruct (run rest db1) as [os db2]. cbn [snd] in *.
    eapply Htrans; eassumption.
Qed.

(** X3. The store only grows. Over any sequence of calls, failed ones
    included, no cache rule and no purge event is ever removed, changed or
    moved: the rows that were there are still the first rows of their
    tables. The same holds of the origins in every column but last_purge. *)
Theorem store_only_grows (script : list (World * Call)) (db : Database) :
  let db' := snd (run script db) in
  (exists added,
     map (set_last_purge "") (rows (cdn_origins db'))
     = (map (set_last_purge "") (rows (cdn_origins db)) ++ added)%list)
  /\ (exists added, rows (cache_rules db') = (rows (cache_rules db) ++ added)%list)
  /\ (exists added, rows (purge_events db') = (rows (purge_events db) ++ added)%list).
Proof.
  cbv zeta.
  apply (run_relation (fun db db' =>
    (exists added,
       map (set_last_purge "") (rows (cdn_origins db'))
       = (map (set_last_purge "") (rows (cdn_origins db)) ++ added)%list)
    /\ (exists added, rows (cache_rules db') = (rows (cache_rules db) ++ added)%list)
    /\ (exists added, rows (purge_events db') = (rows (purge_events db) ++ added)%list))).
  - intros d. repeat split; exists []; now rewrite app_nil_r.
  - intros a b c ((x1 & H1) & (x2 & H2) & (x3 & H3)) ((y1 & G1) & (y2 & G2) & (y3 & G3)).
    repeat split.
    + exists (x1 ++ y1)%list. now rewrite G1, H1, app_assoc.
    + exists (x2 ++ y2)%list. now rewrite G2, H2, app_assoc.
    + exists (x3 ++ y3)%list. now rewrite G3, H3, app_assoc.
  - intros w c d.
    destruct (step_cases w c d)
      as [(e & ->) | [(? & ? & ? & ? & ? & ? & _ & _ & -> & _)
         | [(? & ? & ? & ? & ? & _ & ->) | (oid & ? & ? & ? & _ & ->)]]];
      cbn [snd cdn_origins cache_rules purge_events insert_row fst rows update_rows].
    + repeat split; exists []; now rewrite app_nil_r.
    + repeat split; [eexists; now rewrite map_app | |]; exists []; now rewrite app_nil_r.
    + repeat split; [| eexists; reflexivity |]; exists []; now rewrite app_nil_r.
    + repeat split; [| | eexists; reflexivity]; exists []; rewrite app_nil_r; [|reflexivity].
      rewrite map_map. apply map_ext. intros r.
      now destruct (OriginRow.id r =? oid).
Qed.

(** X4. Every state that calls reach from a new database keeps the shape
    of the schema: no two origins have the same name, and in each of the
    three tables the ids are positive, strictly increasing in scan order and
    not above the table's AUTOINCREMENT sequence. *)
Theorem reachable_store_ok (script : list (World * Call)) :
  let db := snd (run script _init_db) in
  List.NoDup (map OriginRow.name (rows (cdn_origins db)))
  /\ (StronglySorted Z.lt (map OriginRow.id (rows (cdn_origins db)))
      /\ Forall (fun r => 0 < OriginRow.id r <= seq (cdn_origins db)) (rows (cdn_origins db)))
  /\ (StronglySorted Z.lt (map RuleRow.id (rows (cache_rules db)))
      /\ Forall (fun r => 0 < RuleRow.id r <= seq (cache_rules db)) (rows (cache_rules db)))
  /\ (StronglySorted Z.lt (map PurgeRow.id (rows (purge_events db)))
      /\ Forall (fun r => 0 < PurgeRow.id r <= seq (purge_events db))
           (rows (purge_events db))).
Proof.
  cbv zeta. destruct (run_ok script _init_db _init_db_ok) as (Ho & Hr & Hp & Hn).
  repeat split; first [exact Hn | apply Ho | apply Hr | apply Hp].
Qed.

(** ** The two dicts of [cdn_status] *)

Lemma lookup_count_into (p k : string) (d : gmap string nat) :
  count_into p d !! k
  = if decide (p = k) then Some (default 0 (d !! k) + 1)%nat else d !! k.
Proof.
  unfold count_into. rewrite lookup_insert.
  destruct (decide (p = k)) as [->|]; reflexivity.
Qed.

Lemma count_again (o : option nat) (n : nat) :
  match n with
  | O => Some (default 0 o + 1)%nat
  | S _ => Some (default 0 (Some (default 0 o + 1)%nat) + n)%nat
  end = Some (default 0 o + S n)%nat.
Proof. destruct o, n; cbn; apply (f_equal Some); lia. Qed.

Lemma tally_from_lookup (origins : list CDNOrigin.t)
    (acc : gmap string nat * gmap string nat) (k : string) :
  let r := fold_left
             (fun acc o =>
                (count_into (CDNOrigin.provider o) (fst acc),
                 count_into (CDNOrigin.status o) (snd acc)))
             origins acc in
  let np := length (List.filter (fun o => String.eqb (CDNOrigin.provider o) k) origins) in
  let ns := length (List.filter (fun o => String.eqb (CDNOrigin.status o) k) origins) in
  fst r !! k = match np with
               | O => fst acc !! k
               | _ => Some (default 0 (fst acc !! k) + np)%nat
               end
  /\ snd r !! k = match ns with
                  | O => snd acc !! k
                  | _ => Some (default 0 (snd acc !! k) + ns)%nat
                  end.
Proof.
  revert acc. induction origins as [|o origins IH]; intros acc; cbn [fold_left].
  - cbv zeta. cbn. auto.
  - specialize (IH (count_into (CDNOrigin.provider o) (fst acc),
                    count_into (CDNOrigin.status o) (snd acc))).
    cbv zeta in *. cbn [fst snd] in IH. destruct IH as [IHp IHs].
    rewrite IHp, IHs, !lookup_count_into. cbn [List.filter].
    split.
    + destruct (String.eqb_spec (CDNOrigin.provider o) k) as [E|E].
      * rewrite decide_True by exact E. cbn [length]. apply count_again.
      * rewrite decide_False by exact E. reflexivity.
    + destruct (String.eqb_spec (CDNOrigin.status o) k) as [E|E].
      * rewrite decide_True by exact E. cbn [length]. apply count_again.
      * rewrite decide_False by exact E. reflexivity.
Qed.

Lemma length_filter_perm {A} (f : A -> bool) (l l' : list A) :
  Permutation l l' -> length (List.filter f l) = length (List.filter f l').
Proof.
  induction 1 as [|x l l' _ IH|x y l|l l' l'' _ IH1 _ IH2]; cbn [List.filter].
  - reflexivity.
  - destruct (f x); cbn [length]; now rewrite IH.
  - now destruct (f x), (f y).
  - now rewrite IH1.
Qed.

Lemma filter_origin_of_row (f : CDNOrigin.t -> bool) (l : list OriginRow.t) :
  List.filter f (map origin_of_row l)
  = map origin_of_row (List.filter (fun r => f (origin_of_row r)) l).
Proof.
  induction l as [|r l IH]; cbn [map List.filter]; [reflexivity|].
  destruct (f (origin_of_row r)); cbn [map]; now rewrite IH.
Qed.

Lemma status_dicts_lookup (now : Clock) (db : Database) (label : string) :
  let np := length (List.filter (fun r => String.eqb (OriginRow.provider r) label)
                      (rows (cdn_origins db))) in
  let ns := length (List.filter (fun r => String.eqb (OriginRow.status r) label)
                      (rows (cdn_origins db))) in
  Status.by_provider (cdn_status now db) !! label
  = (if (np =? 0)%nat then None else Some np)
  /\ Status.by_status (cdn_status now db) !! label
     = (if (ns =? 0)%nat then None else Some ns).
Proof.
  cbv zeta. unfold cdn_status.
  pose proof (tally_from_lookup (list_origins None db) (∅, ∅) label) as H.
  cbv zeta in H. fold (tally (list_origins None db)) in H.
  destruct (tally (list_origins None db)) as [bp bs].
  cbn [fst snd Status.by_provider Status.by_status] in *.
  destruct H as [Hp Hs]. rewrite Hp, Hs, !lookup_empty.
  unfold list_origins. cbn [truthy]. rewrite !filter_origin_of_row, !length_map.
  rewrite !(length_filter_perm _ _ _ (order_by_perm by_name (rows (cdn_origins db)))).
  cbn [origin_of_row CDNOrigin.provider CDNOrigin.status].
  split.
  - destruct (length (List.filter (fun r => String.eqb (OriginRow.provider r) label) _));
      reflexivity.
  - destruct (length (List.filter (fun r => String.eqb (OriginRow.status r) label) _));
      reflexivity.
Qed.

(** X5. [by_provider] of [cdn_status] maps a label to the number of origins
    stored with exactly that provider, and has no entry for a label that no
    origin has; [by_status] does the same for the status. *)
Theorem cdn_status_counts_by_label (now : Clock) (db : Database) (label : string) :
  let np := length (List.filter (fun r => String.eqb (OriginRow.provider r) label)
                      (rows (cdn_origins db))) in
  let ns := length (List.filter (fun r => String.eqb (OriginRow.status r) label)
                      (rows (cdn_origins db))) in
  (Status.by_provider (cdn_status now db) !! label
   = (if (np =? 0)%nat then None else Some np)
   /\ Status.by_status (cdn_status now db) !! label
      = (if (ns =? 0)%nat then None else Some ns))
  /\ (Status.by_provider (cdn_status now db) !! label = None <->
      forall r, In r (rows (cdn_origins db)) -> OriginRow.provider r <> label).
Proof.
  cbv zeta. split; [apply status_dicts_lookup|].
  rewrite (proj1 (status_dicts_lookup now db label)).
  split.
  - intros H r Hr E.
    assert (Hin : In r (List.filter (fun r => String.eqb (OriginRow.provider r) label)
                          (rows (cdn_origins db)))).
    { apply filter_In. split; [assumption | now apply String.eqb_eq]. }
    destruct (List.filter _ (rows (cdn_origins db))); [contradiction | discriminate H].
  - intros H. rewrite filter_none; [reflexivity|].
    intros r Hr. apply String.eqb_neq. now apply H.
Qed.

(** X6. No operation ever sets a status: in every state reached from a new
    database all origins are 'active' and all purge events are 'queued';
    hence [by_status] is empty for an empty store and otherwise has the
    single entry 'active', with the number of origins. *)
Theorem statuses_never_change (script : list (World * Call)) (now : Clock) :
  let db := snd (run script _init_db) in
  let n := length (rows (cdn_origins db)) in
  Forall (fun o => OriginRow.status o = "active") (rows (cdn_origins db))
  /\ Forall (fun e => PurgeRow.status e = "queued") (rows (purge_events db))
  /\ Status.by_status (cdn_status now db)
     = (if (n =? 0)%nat then ∅ else {[ "active" := n ]}).
Proof.
  cbv zeta.
  assert (Hinv : Forall (fun o => OriginRow.status o = "active")
                   (rows (cdn_origins (snd (run script _init_db))))
                 /\ Forall (fun e => PurgeRow.status e = "queued")
                      (rows (purge_events (snd (run script _init_db))))).
  { apply (run_invariant (fun db =>
             Forall (fun o => OriginRow.status o = "active") (rows (cdn_origins db))
             /\ Forall (fun e => PurgeRow.status e = "queued") (rows (purge_events db)))).
    - intros w c d [Ho He].
      destruct (step_cases w c d)
        as [(e & ->) | [(? & ? & ? & ? & ? & ? & _ & _ & -> & _)
           | [(? & ? & ? & ? & ? & _ & ->) | (oid & ? & ? & ? & _ & ->)]]];
        cbn [snd cdn_origins cache_rules purge_events insert_row fst rows update_rows];
        try (split; assumption).
      + split; [|assumption]. apply Forall_app. split; [assumption|].
        now repeat constructor.
      + split.
        * apply Forall_map. eapply List.Forall_impl; [|exact Ho].
          cbn. intros r Hr. now destruct (OriginRow.id r =? oid).
        * apply Forall_app. split; [assumption|]. now repeat constructor.
    - split; constructor. }
  destruct Hinv as [Ho He]. split; [exact Ho|]. split; [exact He|].
  apply map_eq. intros k.
  rewrite (proj2 (status_dicts_lookup now _ k)).
  assert (Hcount : forall l, Forall (fun o => OriginRow.status o = "active") l ->
            length (List.filter (fun r => String.eqb (OriginRow.status r) k) l)
            = if String.eqb k "active" then length l else O).
  { induction 1 as [|r l Hr _ IH]; cbn [List.filter length].
    - now destruct (String.eqb k "active").
    - rewrite Hr, (String.eqb_sym "active" k).
      destruct (String.eqb k "active"); cbn [length]; now rewrite IH. }
  rewrite (Hcount _ Ho). clear Hcount.
  destruct (String.eqb_spec k "active") as [E|Hne]; [subst k|].
  - destruct (length (rows (cdn_origins (snd (run script _init_db))))); cbn.
    + apply eq_sym, lookup_empty.
    + now rewrite lookup_singleton_eq.
  - cbn. destruct (length (rows (cdn_origins (snd (run script _init_db))))); cbn.
    + apply eq_sym, lookup_empty.
    + rewrite lookup_singleton_ne; [reflexivity | congruence].
Qed.

(** ** Ids and counts along a sequence of calls *)

Lemma ids_cons_consecutive (ids1 ids : list Z) (n n1 n2 : Z) :
  (ids1 = [] /\ n1 = n) \/ (ids1 = [n] /\ n1 = n + 1) ->
  ids = seqZ n1 (Z.of_nat (length ids)) /\ n2 = n1 + Z.of_nat (length ids) ->
  (ids1 ++ ids)%list = seqZ n (Z.of_nat (length (ids1 ++ ids)))
  /\ n2 = n + Z.of_nat (length (ids1 ++ ids)).
Proof.
  intros [[-> ->]|[-> ->]] [Hids Hn2]; cbn [app]; [auto|].
  split; [|cbn [length]; lia].
  rewrite seqZ_cons by (cbn [length]; lia).
  replace (Z.pred (Z.of_nat (length (n :: ids)))) with (Z.of_nat (length ids))
    by (cbn [length]; lia).
  replace (Z.succ n) with (n + 1) by lia. now rewrite <- Hids.
Qed.

Lemma run_ids_consecutive (script : list (World * Call)) (db : Database) :
  let os := fst (run script db) in
  let db' := snd (run script db) in
  (rule_ids os = seqZ (next_rowid (cache_rules db)) (Z.of_nat (length (rule_ids os)))
   /\ next_rowid (cache_rules db')
      = next_rowid (cache_rules db) + Z.of_nat (length (rule_ids os)))
  /\ (purge_ids os = seqZ (next_rowid (purge_events db)) (Z.of_nat (length (purge_ids os)))
      /\ next_rowid (purge_events db')
         = next_rowid (purge_events db) + Z.of_nat (length (purge_ids os))).
Proof.
  revert db. induction script as [|[w c] rest IH]; intros db; cbn [run].
  - cbn. repeat split; lia.
  - pose proof (step_spec w c db) as Hstep.
    destruct (step w c db) as [o db1]. specialize (IH db1).
    destruct (run rest db1) as [os db2]. cbn [fst snd] in *.
    destruct IH as (IHr & IHp).
    rewrite (rule_ids_cons o os), (purge_ids_cons o os).
    destruct o as [e | x | r | p].
    + destruct Hstep as (_ & Hr & Hp). rewrite Hr, Hp in *. split; assumption.
    + destruct Hstep as (_ & _ & Hr & Hp). rewrite Hr, Hp in *. split; assumption.
    + destruct Hstep as (Hid & Hn & Ho & Hp). rewrite Hp in *.
      assert (E : rule_ids [NewRule r] = [next_rowid (cache_rules db)])
        by (cbn; now rewrite Hid).
      split; [|assumption].
      exact (ids_cons_consecutive _ _ _ _ _ (or_intror (conj E Hn)) IHr).
    + destruct Hstep as (Hid & Hn & Ho & Hr). rewrite Hr in *.
      assert (E : purge_ids [NewPurge p] = [next_rowid (purge_events db)])
        by (cbn; now rewrite Hid).
      split; [assumption|].
      exact (ids_cons_consecutive _ _ _ _ _ (or_intror (conj E Hn)) IHp).
Qed.

(** A table whose rows carry the ids 1, 2, ..., n, the next id being n + 1. *)
Lemma dense_insert_row {R} `{Row R} (mk : Z -> R) (t : Table R) :
  (forall i, rowid (mk i) = i) ->
  map rowid (rows t) = seqZ 1 (Z.of_nat (length (rows t)))
  /\ next_rowid t = Z.of_nat (length (rows t)) + 1 ->
  map rowid (rows (fst (insert_row mk t)))
  = seqZ 1 (Z.of_nat (length (rows (fst (insert_row mk t)))))
  /\ next_rowid (fst (insert_row mk t))
     = Z.of_nat (length (rows (fst (insert_row mk t)))) + 1.
Proof.
  intros Hmk [Hids Hnext]. split.
  - cbn [insert_row fst rows]. rewrite map_app, length_app. cbn [map length].
    rewrite Hmk, Hids, Hnext.
    replace (Z.of_nat (length (rows t) + 1)) with (Z.of_nat (length (rows t)) + 1) by lia.
    rewrite seqZ_app by lia. f_equal.
    rewrite (seqZ_cons _ 1) by lia. cbn. f_equal. lia.
  - rewrite (insert_row_next mk t Hmk). cbn [insert_row fst rows].
    rewrite length_app. cbn [length]. lia.
Qed.

Lemma run_dense (script : list (World * Call)) :
  let db := snd (run script _init_db) in
  (map OriginRow.id (rows (cdn_origins db))
   = seqZ 1 (Z.of_nat (length (rows (cdn_origins db))))
   /\ next_rowid (cdn_origins db) = Z.of_nat (length (rows (cdn_origins db))) + 1)
  /\ (map RuleRow.id (rows (cache_rules db))
      = seqZ 1 (Z.of_nat (length (rows (cache_rules db))))
      /\ next_rowid (cache_rules db) = Z.of_nat (length (rows (cache_rules db))) + 1)
  /\ (map PurgeRow.id (rows (purge_events db))
      = seqZ 1 (Z.of_nat (length (rows (purge_events db))))
      /\ next_rowid (purge_events db) = Z.of_nat (length (rows (purge_events db))) + 1).
Proof.
  cbv zeta.
  apply (run_invariant (fun db =>
    (map OriginRow.id (rows (cdn_origins db))
     = seqZ 1 (Z.of_nat (length (rows (cdn_origins db))))
     /\ next_rowid (cdn_origins db) = Z.of_nat (length (rows (cdn_origins db))) + 1)
    /\ (map RuleRow.id (rows (cache_rules db))
        = seqZ 1 (Z.of_nat (length (rows (cache_rules db))))
        /\ next_rowid (cache_rules db) = Z.of_nat (length (rows (cache_rules db))) + 1)
    /\ (map PurgeRow.id (rows (purge_events db))
        = seqZ 1 (Z.of_nat (length (rows (purge_events db))))
        /\ next_rowid (purge_events db) = Z.of_nat (length (rows (purge_events db))) + 1))).
  - intros w c d (Ho & Hr & Hp).
    destruct (step_cases w c d)
      as [(e & ->) | [(? & ? & ? & ? & ? & ? & _ & _ & -> & _)
         | [(? & ? & ? & ? & ? & _ & ->) | (oid & ? & ? & ? & _ & ->)]]];
      cbn [snd cdn_origins cache_rules purge_events].
    + auto.
    + split; [|auto]. apply (dense_insert_row (R := OriginRow.t)); [reflexivity | exact Ho].
    + split; [exact Ho|]. split; [|exact Hp].
      apply (dense_insert_row (R := RuleRow.t)); [reflexivity | exact Hr].
    + split; [|split; [exact Hr|]].
      * rewrite (next_rowid_update_rows (R := OriginRow.t)) by reflexivity.
        cbn [update_rows rows]. rewrite map_map, length_map.
        replace (map _ (rows (cdn_origins d)))
          with (map OriginRow.id (rows (cdn_origins d))); [exact Ho|].
        apply map_ext. intros r. now destruct (OriginRow.id r =? oid).
      * apply (dense_insert_row (R := PurgeRow.t)); [reflexivity | exact Hp].
  - cbn. auto.
Qed.

(** X7. Ids are handed out without gaps. In every state reached from a new
    database the rows of each table carry the ids 1, 2, 3, ..., n in the
    order of their insertion. The cache rules and the purge events that the
    calls returned carry 1, 2, 3, ... in call order: a call to
    [add_cache_rule] or [purge_cache] that raises uses up no id. Every origin
    that [add_origin] returned carries the id of a stored row (an
    [add_origin] that raises while reading back has used up an id that no
    call returned). *)
Theorem ids_count_up_from_one (script : list (World * Call)) :
  let os := fst (run script _init_db) in
  let db := snd (run script _init_db) in
  (map OriginRow.id (rows (cdn_origins db))
   = seqZ 1 (Z.of_nat (length (rows (cdn_origins db))))
   /\ map RuleRow.id (rows (cache_rules db))
      = seqZ 1 (Z.of_nat (length (rows (cache_rules db))))
   /\ map PurgeRow.id (rows (purge_events db))
      = seqZ 1 (Z.of_nat (length (rows (purge_events db)))))
  /\ rule_ids os = map RuleRow.id (rows (cache_rules db))
  /\ purge_ids os = map PurgeRow.id (rows (purge_events db))
  /\ (forall i, In i (origin_ids os) -> In i (map OriginRow.id (rows (cdn_origins db)))).
Proof.
  cbv zeta. destruct (run_dense script) as ((Ho & Hno) & (Hr & Hnr) & (Hp & Hnp)).
  destruct (run_ids_consecutive script _init_db) as ((Er & Enr) & (Ep & Enp)).
  cbv zeta in Er, Enr, Ep, Enp.
  change (next_rowid (cache_rules _init_db)) with 1 in Er, Enr.
  change (next_rowid (purge_events _init_db)) with 1 in Ep, Enp.
  split; [auto|]. split; [|split].
  - rewrite Er, Hr. f_equal. lia.
  - rewrite Ep, Hp. f_equal. lia.
  - intros i Hi. rewrite Ho. apply list_elem_of_In, elem_of_seqZ.
    destruct (run_ids script _init_db) as ((_ & Hall & _) & _).
    cbv zeta in Hall. rewrite List.Forall_forall in Hall. specialize (Hall i Hi).
    change (next_rowid (cdn_origins _init_db)) with 1 in Hall. lia.
Qed.

Lemma status_totals_eq (now : Clock) (db : Database) :
  Status.total_origins (cdn_status now db) = length (rows (cdn_origins db))
  /\ Status.total_rules (cdn_status now db) = length (rows (cache_rules db))
  /\ Status.total_purges (cdn_status now db) = length (rows (purge_events db)).
Proof.
  unfold cdn_status. destruct (tally (list_origins None db)).
  cbn [Status.total_origins Status.total_rules Status.total_purges].
  repeat split. unfold list_origins. cbn [truthy].
  rewrite length_map. apply Permutation_length, order_by_perm.
Qed.

(** X8. [cdn_status] counts what the calls created: after any sequence of
    calls, total_rules and total_purges have each grown by the number of
    [add_cache_rule] and [purge_cache] calls that returned; a call that
    raised adds to neither. total_origins has grown by at least the number of
    [add_origin] calls that returned and by at most the number of
    [add_origin] calls: one that raises while reading the new origin back has
    stored it. *)
Theorem status_counts_successful_calls
    (script : list (World * Call)) (db : Database) (now : Clock) :
  let os := fst (run script db) in
  let db' := snd (run script db) in
  let attempts :=
    length (List.filter (fun wc => match snd wc with
                                   | AddOrigin _ _ _ _ _ _ => true
                                   | _ => false
                                   end) script) in
  ((Status.total_origins (cdn_status now db) + length (origin_ids os)
    <= Status.total_origins (cdn_status now db'))%nat
   /\ (Status.total_origins (cdn_status now db')
       <= Status.total_origins (cdn_status now db) + attempts)%nat)
  /\ Status.total_rules (cdn_status now db')
     = (Status.total_rules (cdn_status now db) + length (rule_ids os))%nat
  /\ Status.total_purges (cdn_status now db')
     = (Status.total_purges (cdn_status now db) + length (purge_ids os))%nat.
Proof.
  cbv zeta.
  destruct (status_totals_eq now (snd (run script db))) as (-> & -> & ->).
  destruct (status_totals_eq now db) as (-> & -> & ->).
  revert db. induction script as [|[w c] rest IH]; intros db; cbn [run].
  - cbn. lia.
  - pose proof (step_cases w c db) as Hstep.
    destruct (step w c db) as [o db1]. specialize (IH db1).
    destruct (run rest db1) as [os db2]. cbn [fst snd] in *.
    rewrite (origin_ids_cons o os), (rule_ids_cons o os), (purge_ids_cons o os).
    rewrite !length_app. cbn [List.filter snd].
    destruct Hstep
      as [(e & [= -> ->]) | [(? & ? & ? & ? & ? & ? & -> & _ & -> & Hres)
         | [(? & ? & ? & ? & ? & -> & [= -> ->]) | (oid & ? & ? & ? & -> & [= -> ->])]]];
      cbn [cdn_origins cache_rules purge_events insert_row fst rows update_rows] in IH;
      rewrite ?length_app, ?length_map in IH.
    + destruct c; cbn in IH |- *; lia.
    + destruct Hres as [-> | (e & ->)]; cbn in IH |- *; lia.
    + cbn in IH |- *; lia.
    + cbn in IH |- *; lia.
Qed.

(** ** Listing, once more *)

Section FilterSorted.
Context {R : Type} (le : R -> R -> bool) (f : R -> bool).
Hypothesis le_total : forall a b, le a b = true \/ le b a = true.
Hypothesis le_trans : forall a b c, le a b = true -> le b c = true -> le a c = true.

Lemma insert_sorted_front (x : R) (l : list R) :
  (forall y, In y l -> le x y = true) -> insert_sorted le x l = x :: l.
Proof.
  destruct l as [|y l]; intros H; cbn [insert_sorted]; [reflexivity|].
  now rewrite (H y (or_introl eq_refl)).
Qed.

Lemma filter_insert_sorted (x : R) (l : list R) :
  StronglySorted (fun a b => le a b = true) l ->
  List.filter f (insert_sorted le x l)
  = if f x then insert_sorted le x (List.filter f l) else List.filter f l.
Proof.
  induction 1 as [|y l Hs IH Hall]; cbn [insert_sorted List.filter].
  - now destruct (f x).
  - destruct (le x y) eqn:Hxy; cbn [List.filter].
    + destruct (f x); [|reflexivity].
      symmetry. apply insert_sorted_front. intros z Hz.
      assert (Hin : In z (y :: l)).
      { destruct (f y); [destruct Hz as [->|Hz]; [now left|]|];
          right; now apply filter_In in Hz as [Hz _]. }
      destruct Hin as [->|Hin]; [exact Hxy|].
      rewrite List.Forall_forall in Hall. exact (le_trans _ _ _ Hxy (Hall z Hin)).
    + rewrite IH. destruct (f y), (f x); cbn [insert_sorted]; rewrite ?Hxy; reflexivity.
Qed.

(** Selecting before sorting or after gives the same rows. *)
Lemma order_by_filter (l : list R) :
  order_by le (List.filter f l) = List.filter f (order_by le l).
Proof.
  induction l as [|x l IH]; [reflexivity|].
  cbn [List.filter]. unfold order_by at 2. cbn [fold_right]. fold (order_by le l).
  rewrite filter_insert_sorted by (now apply order_by_sorted).
  destruct (f x); [|exact IH].
  unfold order_by at 1. cbn [fold_right]. fold (order_by le (List.filter f l)).
  now rewrite IH.
Qed.
End FilterSorted.

(** X9. The provider filter only selects: for a non-empty P,
    [list_origins(provider=P)] is [list_origins()] with the origins of other
    providers left out, the rest in the same order. *)
Theorem list_origins_filter_selects (P : string) (db : Database) :
  P <> "" ->
  list_origins (Some P) db
  = List.filter (fun o => String.eqb (CDNOrigin.provider o) P) (list_origins None db).
Proof.
  intros HP. unfold list_origins. cbn [truthy].
  destruct (String.eqb_spec P "") as [E|_]; [contradiction|]. cbn [negb].
  rewrite filter_origin_of_row. f_equal.
  apply (order_by_filter by_name); [apply by_name_total | apply by_name_trans].
Qed.

Lemma list_origins_filter_selects_witness :
  let c := {| unix_us := 1793700000123456; utc_offset := 3600 |} in
  let db1 := snd (add_origin (healthy c) "shop" "https://origin.example.com"
                    "https://cdn.example.com" "cloudflare" 7200 "" _init_db) in
  let db2 := snd (add_origin (healthy c) "docs" "https://docs.example.com"
                    "https://cdn.example.com/docs" "fastly" 3600 "" db1) in
  let db3 := snd (add_origin (healthy c) "api" "https://api.example.com"
                    "https://cdn.example.com/api" "fastly" 60 "" db2) in
  map CDNOrigin.name (list_origins None db3) = ["api"; "docs"; "shop"]
  /\ map CDNOrigin.name
       (List.filter (fun o => String.eqb (CDNOrigin.provider o) "fastly")
          (list_origins None db3)) = ["api"; "docs"]
  /\ list_origins (Some "fastly") db3
     = List.filter (fun o => String.eqb (CDNOrigin.provider o) "fastly")
         (list_origins None db3).
Proof.
  intros c db1 db2 db3. split; [reflexivity|]. split; [reflexivity|].
  apply (list_origins_filter_selects "fastly" db3). discriminate.
Defined.

Lemma sorted_nodup_strict {A} (key : A -> string) (l : list A) :
  StronglySorted (fun a b => String.leb (key a) (key b) = true) l ->
  List.NoDup (map key l) ->
  StronglySorted (fun a b => String.ltb (key a) (key b) = true) l.
Proof.
  induction 1 as [|a l Hs IH Hall]; cbn [map]; intros Hnd; constructor.
  - apply IH. now apply List.NoDup_cons_iff in Hnd.
  - apply List.NoDup_cons_iff in Hnd as [Hnotin _].
    rewrite List.Forall_forall in *. intros b Hb. specialize (Hall b Hb).
    unfold String.leb, String.ltb in *.
    destruct (String.compare (key a) (key b)) eqn:Hc; try reflexivity; [|discriminate].
    apply String.compare_eq_iff in Hc. exfalso. apply Hnotin.
    rewrite Hc. now apply in_map.
Qed.

(** X10. In every state reached from a new database the listing, filtered or
    not, is strictly ascending by name: no two listed origins share a name,
    so the order of the listing is fully determined. *)
Theorem listing_strictly_ascending
    (script : list (World * Call)) (provider : option string) :
  StronglySorted
    (fun a b => String.ltb (CDNOrigin.name a) (CDNOrigin.name b) = true)
    (list_origins provider (snd (run script _init_db))).
Proof.
  apply sorted_nodup_strict.
  - apply list_origins_sorted.
  - apply list_origins_strict, run_ok, _init_db_ok.
Qed.

(** ** A purge, seen by the status *)

(** X11. A purge that was recorded at one instant is counted in [purges_24h]
    of a status taken at another exactly when less than 24 hours (86400
    seconds, on whole seconds) lie between them; the count of the events that
    were there before is not affected. *)
Theorem purge_then_status
    (w : World) (X : Z) (purge_type target triggered_by : string) (db : Database)
    (now : Clock) :
  valid_ts (unix_seconds (clock w)) -> valid_ts (unix_seconds now - 86400) ->
  match purge_cache w X purge_type target triggered_by db with
  | (Ok _, db') =>
      Status.purges_24h (cdn_status now db')
      = (Status.purges_24h (cdn_status now db)
         + Nat.b2n (unix_seconds now - unix_seconds (clock w) <? 86400)%Z)%nat
  | (Raise _, db') =>
      Status.purges_24h (cdn_status now db') = Status.purges_24h (cdn_status now db)
  end.
Proof.
  intros Vw Vnow.
  destruct (purge_cache_cases w X purge_type target triggered_by db)
    as [(e & ->) | (_ & _ & ->)]; [reflexivity|].
  rewrite !purges_24h_eq. cbn [purge_events insert_row fst rows].
  rewrite List.filter_app, length_app. f_equal. cbn [List.filter].
  rewrite (in_last_day_spec now
             (purge_row (clock w) X purge_type target "queued" triggered_by
                (next_rowid (purge_events db)))
             (unix_seconds (clock w)) Vnow Vw eq_refl).
  replace (unix_seconds now - 86400 <? unix_seconds (clock w))
    with (unix_seconds now - unix_seconds (clock w) <? 86400)
    by (apply Bool.eq_true_iff_eq; rewrite !Z.ltb_lt; lia).
  now destruct (unix_seconds now - unix_seconds (clock w) <? 86400).
Qed.

Lemma purge_then_status_witness :
  let at_h (h : Z) := {| unix_us := (1793700000 - h * 3600) * 1000000 + 123456;
                         utc_offset := 3600 |} in
  let db0 := snd (add_origin (healthy (at_h 30)) "shop" "https://origin.example.com"
                    "https://cdn.example.com" "cloudflare" 7200 "" _init_db) in
  let db1 := snd (purge_cache (healthy (at_h 24)) 1 "full" "*" "cli" db0) in
  let db2 := snd (purge_cache (healthy (at_h 23)) 1 "full" "*" "cli" db1) in
  Status.purges_24h (cdn_status (at_h 0) db0) = 0%nat
  /\ Status.purges_24h (cdn_status (at_h 0) db1) = 0%nat
  /\ Status.purges_24h (cdn_status (at_h 0) db2) = 1%nat.
Proof.
  intros at_h db0 db1 db2.
  assert (V : forall h, 0 <= h <= 30 -> valid_ts (unix_seconds (at_h h))
                                      /\ valid_ts (unix_seconds (at_h 0) - 86400)).
  { intros h Hh. unfold valid_ts, unix_seconds, at_h. cbn [unix_us].
    split.
    - pose proof (Z.div_mod ((1793700000 - h * 3600) * 1000000 + 123456) 1000000
                    ltac:(lia)).
      pose proof (Z.mod_pos_bound ((1793700000 - h * 3600) * 1000000 + 123456) 1000000
                    ltac:(lia)). lia.
    - vm_compute. split; discriminate. }
  split; [reflexivity|].
  pose proof (purge_then_status (healthy (at_h 24)) 1 "full" "*" "cli" db0 (at_h 0)
                (proj1 (V 24 ltac:(lia))) (proj2 (V 24 ltac:(lia)))) as H1.
  pose proof (purge_then_status (healthy (at_h 23)) 1 "full" "*" "cli" db1 (at_h 0)
                (proj1 (V 23 ltac:(lia))) (proj2 (V 23 ltac:(lia)))) as H2.
  fold db1 in H2.
  change (purge_cache (healthy (at_h 24)) 1 "full" "*" "cli" db0)
    with (Ok {| PurgeEvent.id := Some 1; PurgeEvent.origin_id := 1;
                PurgeEvent.purge_type := "full"; PurgeEvent.target := "*";
                PurgeEvent.status := "queued"; PurgeEvent.triggered_by := "cli";
                PurgeEvent.created_at := Some (datetime_now_isoformat (at_h 24)) |}, db1)
    in H1.
  change (purge_cache (healthy (at_h 23)) 1 "full" "*" "cli" db1)
    with (Ok {| PurgeEvent.id := Some 2; PurgeEvent.origin_id := 1;
                PurgeEvent.purge_type := "full"; PurgeEvent.target := "*";
                PurgeEvent.status := "queued"; PurgeEvent.triggered_by := "cli";
                PurgeEvent.created_at := Some (datetime_now_isoformat (at_h 23)) |}, db2)
    in H2.
  cbv beta iota in H1, H2. split.
  - rewrite H1. reflexivity.
  - rewrite H2, H1. reflexivity.
Defined.

(** ** Lookup and listing after an insertion *)

(** X19. [add_origin] then [list_origins]: after a call that returns, the
    unfiltered listing holds the new origin and the origins listed before,
    each as often as before, and nothing else; [add_origin] never returns
    [None]. After a call that raises, every listing is what it was, unless
    it is the reading back that failed: then the new origin is listed. *)
Theorem add_origin_then_list
    (w : World) (name origin_url cdn_url provider : string) (cache_ttl : Z)
    (notes : string) (db : Database) (filter : option string) :
  let new :=
    origin_of_row (origin_row (clock w) name origin_url cdn_url provider cache_ttl notes
                     (next_rowid (cdn_origins db))) in
  match add_origin w name origin_url cdn_url provider cache_ttl notes db with
  | (Ok (Some o), db') =>
      o = new
      /\ Permutation (list_origins None db') (o :: list_origins None db)
      /\ ~ In (CDNOrigin.name o) (map CDNOrigin.name (list_origins None db))
  | (Ok None, db') => False
  | (Raise _, db') =>
      list_origins filter db' = list_origins filter db
      \/ (Permutation (list_origins None db') (new :: list_origins None db)
          /\ ~ In name (map CDNOrigin.name (list_origins None db)))
  end.
Proof.
  cbv zeta.
  assert (Hnames : name_taken name db = false ->
                   ~ In name (map CDNOrigin.name (list_origins None db))).
  { intros Hfree Hin. apply (name_taken_false name db Hfree).
    apply in_map_iff in Hin as (o & Ho & Hin).
    apply (Permutation_in _ (list_origins_unfiltered None db eq_refl)) in Hin.
    apply in_map_iff in Hin as (r & <- & Hr). apply in_map_iff.
    exists r. split; [exact Ho | exact Hr]. }
  destruct (add_origin_cases w name origin_url cdn_url provider cache_ttl notes db)
    as [(e & ->) | (Hfree & _ & _ & Hdb & Hres)]; [now left|].
  assert (Hperm : Permutation
            (list_origins None
               {| cdn_origins :=
                    fst (insert_row (origin_row (clock w) name origin_url cdn_url provider
                                       cache_ttl notes) (cdn_origins db));
                  cache_rules := cache_rules db; purge_events := purge_events db |})
            (origin_of_row (origin_row (clock w) name origin_url cdn_url provider cache_ttl
                              notes (next_rowid (cdn_origins db)))
             :: list_origins None db)).
  { rewrite (list_origins_unfiltered None _ eq_refl).
    cbn [cdn_origins insert_row fst rows]. rewrite map_app. cbn [map].
    rewrite <- Permutation_cons_append. constructor.
    symmetry. now apply list_origins_unfiltered. }
  destruct (add_origin w name origin_url cdn_url provider cache_ttl notes db) as [r d].
  cbn [fst snd] in *. subst d.
  destruct Hres as [-> | (e & ->)].
  - split; [reflexivity|]. split; [exact Hperm | now apply Hnames].
  - right. split; [exact Hperm | now apply Hnames].
Qed.

End StoreFacts.

(** * The display helpers *)

Module DisplayFacts.
Import Timestamps Sqlite CDN Display TextOrder TimestampFacts.
Local Open Scope Z_scope.

(** ** Printing integers *)

Lemma str_int_parse (n : Z) : NilZero.int_of_string (str_int n) = Some (Z.to_int n).
Proof.
  unfold str_int. apply NilZero.isi.
  - destruct n as [|p|p]; cbn; try discriminate.
    intros [= H]. now apply Unsigned.to_uint_nonnil in H.
  - destruct n as [|p|p]; cbn; try discriminate.
    intros [= H]. now apply Unsigned.to_uint_nonnil in H.
Qed.

(** Different integers print differently. *)
Lemma str_int_inj (a b : Z) : str_int a = str_int b -> a = b.
Proof.
  intros H. apply DecimalZ.to_int_inj.
  pose proof (str_int_parse a) as Ha. rewrite H, str_int_parse in Ha. congruence.
Qed.

Lemma snoc_inj (s t : string) (c d : ascii) :
  (s ++ String c "" = t ++ String d "")%string -> s = t /\ c = d.
Proof.
  revert t. induction s as [|a s IH]; intros [|b t]; rewrite ?append_cons, ?append_nil.
  - intros [= ->]. auto.
  - intros [= _ H]. destruct t; discriminate H.
  - intros [= _ H]. destruct s; discriminate H.
  - intros [= -> H]. destruct (IH _ H) as [-> ->]. auto.
Qed.

Lemma str_int_neg (n : Z) : n < 0 -> str_int n = String "-" (str_int (- n)).
Proof. destruct n as [|p|p]; intros H; try lia. reflexivity. Qed.

(** ** [_ttl_label] *)

(** X12. What a TTL label says. Below 60 the label is the number itself
    with an s (also for a negative TTL, whatever its size: nothing checks the
    sign); from there on it is the whole number of minutes (1 to 59), hours
    (1 to 23) or days (1 or more) that fit, the remainder dropped. *)
Theorem ttl_label_rounds_down (ttl : Z) :
  (ttl < 60 /\ _ttl_label ttl = (str_int ttl ++ "s")%string
   /\ (ttl < 0 -> _ttl_label ttl = (String "-" (str_int (- ttl)) ++ "s")%string))
  \/ (exists k, 1 <= k <= 59 /\ 60 * k <= ttl < 60 * (k + 1)
                /\ _ttl_label ttl = (str_int k ++ "m")%string)
  \/ (exists k, 1 <= k <= 23 /\ 3600 * k <= ttl < 3600 * (k + 1)
                /\ _ttl_label ttl = (str_int k ++ "h")%string)
  \/ (exists k, 1 <= k /\ 86400 * k <= ttl < 86400 * (k + 1)
                /\ _ttl_label ttl = (str_int k ++ "d")%string).
Proof.
  unfold _ttl_label.
  destruct (Z.ltb_spec ttl 60) as [H1|H1].
  { left. split; [assumption|]. split; [reflexivity|].
    intros Hneg. now rewrite str_int_neg. }
  right. destruct (Z.ltb_spec ttl 3600) as [H2|H2].
  { left. exists (ttl / 60). split; [|split; [|reflexivity]].
    - pose proof (Z.div_mod ttl 60 ltac:(lia)).
      pose proof (Z.mod_pos_bound ttl 60 ltac:(lia)). lia.
    - pose proof (Z.div_mod ttl 60 ltac:(lia)).
      pose proof (Z.mod_pos_bound ttl 60 ltac:(lia)). lia. }
  right. destruct (Z.ltb_spec ttl 86400) as [H3|H3].
  { left. exists (ttl / 3600). split; [|split; [|reflexivity]].
    - pose proof (Z.div_mod ttl 3600 ltac:(lia)).
      pose proof (Z.mod_pos_bound ttl 3600 ltac:(lia)). lia.
    - pose proof (Z.div_mod ttl 3600 ltac:(lia)).
      pose proof (Z.mod_pos_bound ttl 3600 ltac:(lia)). lia. }
  right. exists (ttl / 86400). split; [|split; [|reflexivity]].
  - pose proof (Z.div_mod ttl 86400 ltac:(lia)).
    pose proof (Z.mod_pos_bound ttl 86400 ltac:(lia)). lia.
  - pose proof (Z.div_mod ttl 86400 ltac:(lia)).
    pose proof (Z.mod_pos_bound ttl 86400 ltac:(lia)). lia.
Qed.

(** X13. Two TTLs get the same label exactly when the display cannot tell
    them apart: both below a minute and equal, or both in the minutes range
    (or the hours range, or the days range) with the same whole number of
    that unit. Labels of different units never coincide. *)
Theorem ttl_label_same_iff (a b : Z) :
  _ttl_label a = _ttl_label b <->
  (a < 60 /\ a = b)
  \/ (60 <= a < 3600 /\ 60 <= b < 3600 /\ a / 60 = b / 60)
  \/ (3600 <= a < 86400 /\ 3600 <= b < 86400 /\ a / 3600 = b / 3600)
  \/ (86400 <= a /\ 86400 <= b /\ a / 86400 = b / 86400).
Proof.
  unfold _ttl_label. split.
  - destruct (Z.ltb_spec a 60), (Z.ltb_spec a 3600), (Z.ltb_spec a 86400);
      destruct (Z.ltb_spec b 60), (Z.ltb_spec b 3600), (Z.ltb_spec b 86400);
      try lia; intros Heq; apply snoc_inj in Heq as [Heq Hc]; try discriminate Hc;
      apply str_int_inj in Heq.
    + left. lia.
    + right; left. lia.
    + right; right; left. lia.
    + right; right; right. lia.
  - intros [[Ha ->] | [(Ha & Hb & E) | [(Ha & Hb & E) | (Ha & Hb & E)]]].
    + reflexivity.
    + destruct (Z.ltb_spec a 60), (Z.ltb_spec a 3600), (Z.ltb_spec b 60),
        (Z.ltb_spec b 3600); try lia. now rewrite E.
    + destruct (Z.ltb_spec a 60), (Z.ltb_spec a 3600), (Z.ltb_spec a 86400),
        (Z.ltb_spec b 60), (Z.ltb_spec b 3600), (Z.ltb_spec b 86400); try lia.
      now rewrite E.
    + destruct (Z.ltb_spec a 60), (Z.ltb_spec a 3600), (Z.ltb_spec a 86400),
        (Z.ltb_spec b 60), (Z.ltb_spec b 3600), (Z.ltb_spec b 86400); try lia.
      now rewrite E.
Qed.

(** ** Characters and bytes *)

Lemma py_len_le (s : string) : (py_len s <= String.length s)%nat.
Proof.
  induction s as [|a s IH]; cbn [py_len String.length]; [lia|].
  destruct (is_continuation a); lia.
Qed.

Lemma py_len_append (s t : string) : py_len (s ++ t) = (py_len s + py_len t)%nat.
Proof.
  induction s as [|a s IH]; [reflexivity|]. rewrite append_cons. cbn [py_len].
  destruct (is_continuation a); rewrite IH; reflexivity.
Qed.

(** On text without multi-byte characters, cutting after as many characters
    as the text is long gives the text. *)
Lemma py_take_full (s t : string) :
  py_len s = String.length s -> py_take 0 t = EmptyString ->
  py_take (String.length s) (s ++ t) = s.
Proof.
  intros Hs Ht. induction s as [|a s IH]; [exact Ht|].
  rewrite append_cons. cbn [py_len String.length py_take] in *.
  pose proof (py_len_le s).
  destruct (is_continuation a); [lia|]. f_equal. apply IH. lia.
Qed.

Lemma digit_not_continuation (v : Z) : is_continuation (digit v) = false.
Proof.
  unfold is_continuation, digit.
  pose proof (Z.mod_pos_bound v 10 ltac:(lia)).
  rewrite N_ascii_embedding by lia.
  destruct (N.leb_spec 128 (48 + Z.to_N (v mod 10))); [lia | reflexivity].
Qed.

Lemma py_len_pad (k : nat) (v : Z) : py_len (pad k v) = k.
Proof.
  revert v. induction k as [|k IH]; intros v; [reflexivity|].
  cbn [pad]. rewrite py_len_append, IH. cbn [py_len].
  rewrite digit_not_continuation. lia.
Qed.

Lemma date_time_plain (sep : ascii) (s : Z) :
  is_continuation sep = false ->
  String.length (date_time sep s) = 19%nat /\ py_len (date_time sep s) = 19%nat.
Proof.
  intros Hsep. rewrite date_time_fields. split.
  - repeat (rewrite ?length_append, ?length_pad; cbn [String.length]). reflexivity.
  - repeat (rewrite ?py_len_append, ?py_len_pad; cbn [py_len]).
    rewrite Hsep. reflexivity.
Qed.

(** [isoformat()[:19]] is the timestamp without its fraction of a second. *)
Lemma isoformat_take_19 (c : Clock) :
  py_take 19 (datetime_now_isoformat c)
  = date_time "T" (unix_seconds c + utc_offset c)
  /\ nonempty (datetime_now_isoformat c) = true.
Proof.
  destruct (date_time_plain "T" (unix_seconds c + utc_offset c) eq_refl) as [Hlen Hpy].
  unfold datetime_now_isoformat. split.
  - rewrite <- Hlen at 1. apply py_take_full; [congruence|].
    now destruct (unix_us c mod 1000000 =? 0).
  - unfold nonempty.
    destruct (date_time "T" (unix_seconds c + utc_offset c)) as [|a s];
      [discriminate Hlen | reflexivity].
Qed.

(** X14. The Purged line of [_print_origin]. For an origin that carries the
    timestamp of a purge, the line shows that timestamp cut to whole seconds,
    "YYYY-MM-DDTHH:MM:SS" in local time: the slice [[:19]] drops the
    microseconds and nothing else. An origin that was never purged has no
    such line. *)
Theorem purged_line_shows_seconds (o : CDNOrigin.t) (i : Z) (c : Clock) :
  CDNOrigin.id o = Some i ->
  (CDNOrigin.last_purge o = Some (datetime_now_isoformat c) ->
   exists lines,
     _print_origin o = Some lines
     /\ In ("        Purged : " ++ YELLOW
            ++ date_time "T" (unix_seconds c + utc_offset c) ++ NC)%string lines)
  /\ (CDNOrigin.last_purge o = None ->
      exists lines,
        _print_origin o = Some lines
        /\ forall l, In l lines -> String.prefix "        Purged : " l = false).
Proof.
  intros Hid. unfold _print_origin. rewrite Hid. split.
  - intros ->. destruct (isoformat_take_19 c) as [-> ->].
    eexists. split; [reflexivity|]. cbn [app In]. do 4 right. now left.
  - intros ->. eexists. split; [reflexivity|].
    intros l Hl. cbn [app] in Hl.
    destruct Hl as [<-|[<-|[<-|[<-|Hl]]]]; try reflexivity.
    destruct (nonempty (CDNOrigin.notes o)); cbn [app In] in Hl;
      intuition (subst; reflexivity).
Qed.

Lemma purged_line_shows_seconds_witness :
  let c := {| unix_us := 1793700000123456; utc_offset := 3600 |} in
  let db1 := snd (add_origin (healthy c) "shop" "https://origin.example.com"
                    "https://cdn.example.com" "cloudflare" 7200 "" _init_db) in
  let db2 := snd (purge_cache (healthy c) 1 "path" "/images/*" "cli" db1) in
  let o := {| CDNOrigin.id := Some 1; CDNOrigin.name := "shop";
              CDNOrigin.origin_url := "https://origin.example.com";
              CDNOrigin.cdn_url := "https://cdn.example.com";
              CDNOrigin.provider := "cloudflare"; CDNOrigin.status := "active";
              CDNOrigin.cache_ttl := 7200; CDNOrigin.notes := "";
              CDNOrigin.created_at := Some (CURRENT_TIMESTAMP c);
              CDNOrigin.last_purge := Some (datetime_now_isoformat c) |} in
  list_origins None db2 = [o]
  /\ exists lines,
       _print_origin o = Some lines
       /\ In ("        Purged : " ++ YELLOW ++ "2026-11-03T11:00:00" ++ NC)%string lines.
Proof.
  intros c db1 db2 o. split; [reflexivity|].
  exact (proj1 (purged_line_shows_seconds o 1 c eq_refl) eq_refl).
Defined.

End DisplayFacts.

(** * The command line *)

Module CLIFacts.
Import Timestamps Sqlite CDN Display CLI TextOrder SqliteFacts CDNFacts StoreFacts.
Local Open Scope Z_scope.

(** ** Exceptions *)





(** X16. Rules made from the command line always cache headers: the rule
    sub-command has no option for [cache_headers], so the row it stores has
    cache_headers 1, with the origin id, pattern, TTL and type that were
    given; and the line it prints shows the id of that row and the TTL label
    of that TTL. An invocation that an exception ends stores nothing. *)
Theorem cli_rule_caches_headers
    (help : string) (origin_id : Z) (path_pattern : string) (ttl : Z)
    (rule_type : string) (fsys : Files) (w : World) (file : option Database) :
  let inv := main help (RuleCmd origin_id path_pattern ttl rule_type) fsys w file in
  match uncaught inv with
  | Some _ => store inv = connect file
  | None =>
      exists row,
        rows (cache_rules (store inv))
        = (rows (cache_rules (connect file)) ++ [row])%list
        /\ RuleRow.cache_headers row = 1
        /\ RuleRow.origin_id row = origin_id
        /\ RuleRow.path_pattern row = path_pattern
        /\ RuleRow.ttl row = ttl
        /\ RuleRow.rule_type row = rule_type
        /\ stdout inv
           = [banner;
              ("  " ++ GREEN ++ "✓ Rule [" ++ str_int (RuleRow.id row) ++ "]: "
                 ++ path_pattern ++ " → TTL " ++ _ttl_label ttl ++ NC
                 ++ String "010" "")%string]
  end.
Proof.
  cbv zeta. unfold main, __init__.
  destruct (mkdir_fails fsys); [reflexivity|].
  destruct (fault_within 1 w); [reflexivity|].
  destruct (add_cache_rule_cases (later 1 w) origin_id path_pattern ttl true rule_type
              (connect file)) as [(x & ->) | (_ & _ & _ & ->)];
    cbn [uncaught store stdout stopped]; [reflexivity|].
  eexists. split; [reflexivity|]. repeat split.
Qed.

(** ** The providers of the status *)

Lemma item_le_total (a b : string * nat) : item_le a b = true \/ item_le b a = true.
Proof.
  unfold item_le. rewrite (String.compare_antisym (fst a) (fst b)).
  destruct (String.compare (fst b) (fst a)); cbn [CompOpp]; auto.
  destruct (Nat.leb_spec (snd a) (snd b)); [now left|].
  right. apply Nat.leb_le. lia.
Qed.

Lemma compare_gt_lt (s t : string) : String.compare s t = Gt -> String.compare t s = Lt.
Proof. intros H. rewrite String.compare_antisym, H. reflexivity. Qed.

Lemma item_le_trans (a b c : string * nat) :
  item_le a b = true -> item_le b c = true -> item_le a c = true.
Proof.
  unfold item_le.
  destruct (String.compare (fst a) (fst b)) eqn:Hab; try discriminate;
    destruct (String.compare (fst b) (fst c)) eqn:Hbc; try discriminate; intros H1 H2.
  - apply String.compare_eq_iff in Hab, Hbc. rewrite Hab, Hbc, compare_refl.
    apply Nat.leb_le in H1, H2. apply Nat.leb_le. lia.
  - apply String.compare_eq_iff in Hab. now rewrite Hab, Hbc.
  - apply String.compare_eq_iff in Hbc. now rewrite <- Hbc, Hab.
  - now rewrite (compare_lt_trans _ _ _ Hab Hbc).
Qed.

(** X17. The "By Provider" lines of the status. [sorted(by_provider.items())]
    gives one item per provider that some origin has, with the number of
    origins of that provider, the providers strictly ascending. *)
Theorem status_lists_providers_in_order (now : Clock) (db : Database) :
  let items := sorted_items (Status.by_provider (cdn_status now db)) in
  StronglySorted (fun a b => String.ltb (fst a) (fst b) = true) items
  /\ forall p n,
       In (p, n) items <->
       n <> O
       /\ n = length (List.filter (fun r => String.eqb (OriginRow.provider r) p)
                       (rows (cdn_origins db))).
Proof.
  cbv zeta. unfold sorted_items.
  set (d := Status.by_provider (cdn_status now db)).
  pose proof (order_by_perm item_le (map_to_list d)) as Hperm.
  pose proof (order_by_sorted item_le item_le_total item_le_trans (map_to_list d))
    as Hsorted.
  split.
  - apply sorted_nodup_strict.
    + eapply StronglySorted_map with (f := fun x : string * nat => x) in Hsorted.
      * rewrite map_id in Hsorted. exact Hsorted.
      * intros a b Hab. unfold item_le in Hab. unfold String.leb.
        now destruct (String.compare (fst a) (fst b)).
    + eapply Permutation_NoDup.
      * apply Permutation_map. symmetry. exact Hperm.
      * apply NoDup_ListNoDup, NoDup_fst_map_to_list.
  - intros p n.
    assert (Hin : In (p, n) (order_by item_le (map_to_list d)) <-> d !! p = Some n).
    { rewrite <- elem_of_map_to_list, <- list_elem_of_In.
      split; intros H; [rewrite <- Hperm | rewrite Hperm]; exact H. }
    rewrite Hin. unfold d.
    rewrite (proj1 (status_dicts_lookup now db p)).
    destruct (length (List.filter _ (rows (cdn_origins db)))) as [|m]; cbn.
    + split; [discriminate | intros [H ->]; contradiction].
    + split; [intros [= <-]; auto | intros [_ ->]; reflexivity].
Qed.

End CLIFacts.
